(** * hr-little-api: the client runtime of the robot, embedded in Rocq

    The development follows the Python sources:
    - [Py]: the built-ins of Python the sources call ([len], slicing,
      [str.find], [str.startswith], [str.replace], [str.zfill], [str], [int],
      [float]) and the exceptions they raise;
    - [Json]: the values and the decoder of the [json] module ([json.loads]);
    - [JsonApi]: [hr_little_api/json_api.py];
    - [Builders], [Functional]: the part of [hr_little_api/builders.py] and
      [hr_little_api/functional.py] the robot's dispatch methods call;
    - [Robot]: [hr_little_api/robot.py], the classes [ActionHandle] and
      [Robot], as a state-and-exception monad over the objects' fields;
    - [Transport]: the reader loop of [hr_little_api/transport.py].

    Text is [list ascii]: a Python [str] whose code points are below 256.
    Floating-point numbers are idealised as exact rationals. *)

From Stdlib Require Import ZArith NArith QArith Ascii String List Lia Bool.
From stdpp Require Import base option list gmap strings.
Import ListNotations.
Local Open Scope Z_scope.

Abbreviation str := (list ascii).

(** [text "abc"] is the Python literal ['abc']. *)
Definition text (s : string) : str := list_ascii_of_string s.

(** The double quote, and [jtext], which writes a text that holds double
    quotes with apostrophes in their place: [jtext "{'cmd':'echo'}"] is the
    Python literal ['{"cmd":"echo"}']. *)
Definition dquote : ascii := "034"%char.

Definition jtext (s : string) : str :=
  map (fun c => if Ascii.eqb c "'"%char then dquote else c) (text s).

(** ** Python built-ins *)
Module Py.

(** The exceptions the sources can raise. [ValueError] covers its subclass
    [json.JSONDecodeError]. *)
Inductive exn := ValueError | TypeError | KeyError | AttributeError.

Inductive result (A : Type) :=
| Ok (a : A)
| Raise (e : exn).
Arguments Ok {A} a.
Arguments Raise {A} e.

Definition len (s : str) : Z := Z.of_nat (length s).

(** An index of a slice, as Python adjusts it to a sequence of length [n]:
    a negative index counts from the end, and both ends are clamped. *)
Definition adjust_index (n i : Z) : Z :=
  if i <? 0 then Z.max 0 (i + n) else Z.min i n.

(** [s[start:stop]]; [None] is an omitted bound. *)
Definition slice (s : str) (start stop : option Z) : str :=
  let n := len s in
  let a := match start with None => 0 | Some i => adjust_index n i end in
  let b := match stop with None => n | Some j => adjust_index n j end in
  take (Z.to_nat (b - a)) (drop (Z.to_nat a) s).

(** [s.startswith(p)] *)
Fixpoint startswith (s p : str) : bool :=
  match p, s with
  | [], _ => true
  | _ :: _, [] => false
  | a :: p', b :: s' => Ascii.eqb a b && startswith s' p'
  end.

(** [s.find(sub)]: the lowest index where [sub] occurs in [s], or [-1]. *)
Fixpoint find_from (i : Z) (s sub : str) : Z :=
  if startswith s sub then i
  else match s with
       | [] => -1
       | _ :: s' => find_from (i + 1) s' sub
       end.

Definition find (s sub : str) : Z := find_from 0 s sub.

(** [sub in s] for two strings. *)
Definition contains (s sub : str) : bool := 0 <=? find s sub.

(** [s.replace(old, new)]: every occurrence of [old], found from the left
    and without overlap, is replaced. [skip] counts the characters of an
    occurrence that remain to be dropped. *)
Fixpoint replace_from (skip : nat) (s old new : str) : str :=
  match s with
  | [] => []
  | c :: s' =>
      match skip with
      | S k => replace_from k s' old new
      | O =>
          if startswith s old
          then new ++ replace_from (length old - 1) s' old new
          else c :: replace_from 0 s' old new
      end
  end.

Definition replace (s old new : str) : str :=
  match old with
  | [] => new ++ flat_map (fun c => c :: new) s
  | _ :: _ => replace_from 0 s old new
  end.

(** [s.zfill(width)] for a text without a sign, as the sources use it. *)
Definition zfill (s : str) (width : nat) : str :=
  repeat "0"%char (width - length s) ++ s.

(** Decimal digits. *)
Definition digit_of_ascii (c : ascii) : option N :=
  let n := N_of_ascii c in
  if ((48 <=? n) && (n <=? 57))%N then Some (n - 48)%N else None.

Definition ascii_of_digit (d : N) : ascii := ascii_of_N (48 + d).

Definition is_digit (c : ascii) : bool :=
  match digit_of_ascii c with Some _ => true | None => false end.

(** [str(n)] for an integer: the decimal digits of [n], the most
    significant first. [fuel] bounds the number of digits. *)
Fixpoint digits_of_N (fuel : nat) (n : N) (acc : str) : str :=
  let acc' := ascii_of_digit (n mod 10) :: acc in
  match fuel with
  | O => acc'
  | S fuel' =>
      if (n <? 10)%N then acc' else digits_of_N fuel' (n / 10) acc'
  end.

Definition str_of_N (n : N) : str := digits_of_N (N.to_nat (N.size n)) n [].

Definition str_of_Z (z : Z) : str :=
  match z with
  | Zneg p => "-"%char :: str_of_N (Npos p)
  | _ => str_of_N (Z.to_N z)
  end.

(** White space as [int] and [float] strip it: the code points below 256
    for which [str.isspace] holds. *)
Definition is_space (c : ascii) : bool :=
  let n := N_of_ascii c in
  ((9 <=? n) && (n <=? 13) || (28 <=? n) && (n <=? 32)
   || (n =? 133) || (n =? 160))%N.

Fixpoint lstrip (s : str) : str :=
  match s with
  | c :: s' => if is_space c then lstrip s' else s
  | [] => []
  end.

Definition strip (s : str) : str := rev (lstrip (rev (lstrip s))).

(** The grammar [digit (["_"] digit)*] of the numeric literals: the value
    of the digits read so far is [acc]; [after_digit] tells that the
    previous character was a digit. [None] when [s] is not of that form. *)
Fixpoint digitpart (acc : N) (after_digit : bool) (s : str) : option N :=
  match s with
  | [] => if after_digit then Some acc else None
  | c :: s' =>
      match digit_of_ascii c with
      | Some d => digitpart (acc * 10 + d) true s'
      | None =>
          if Ascii.eqb c "_"%char && after_digit
          then digitpart acc false s'
          else None
      end
  end.

(** A leading sign: [true] for a minus. *)
Definition split_sign (s : str) : bool * str :=
  match s with
  | c :: s' =>
      if Ascii.eqb c "-"%char then (true, s')
      else if Ascii.eqb c "+"%char then (false, s')
      else (false, s)
  | [] => (false, s)
  end.

(** [int(s)] for a text [s] (base 10); [None] is [ValueError]. *)
Definition int (s : str) : option Z :=
  let (neg, body) := split_sign (strip s) in
  match digitpart 0 false body with
  | Some n => Some (if neg then - Z.of_N n else Z.of_N n)
  | None => None
  end.

(** Floating-point values: a finite value is kept as the exact rational it
    was computed from. *)
Inductive float :=
| NaN
| Inf (negative : bool)
| Fin (q : Q).

(** [x / 10.] *)
Definition div10 (x : float) : float :=
  match x with
  | Fin q => Fin (Qred (q / (10 # 1)))
  | _ => x
  end.

Definition lower (c : ascii) : ascii :=
  let n := N_of_ascii c in
  if ((65 <=? n) && (n <=? 90))%N then ascii_of_N (n + 32) else c.

(** The longest prefix of the form [digit (["_"] digit)*]: its digits, and
    what follows it. The prefix is empty when [s] starts with no digit. *)
Fixpoint scan_digits (s : str) : str * str :=
  match s with
  | c :: s' =>
      if is_digit c then
        match s' with
        | u :: s'' =>
            let next :=
              if Ascii.eqb u "_"%char
                 && match s'' with d :: _ => is_digit d | [] => false end
              then scan_digits s'' else scan_digits s' in
            (c :: next.1, next.2)
        | [] => ([c], [])
        end
      else ([], s)
  | [] => ([], [])
  end.

Definition digits_value (ds : str) : N :=
  fold_left (fun acc c => acc * 10 + default 0 (digit_of_ascii c))%N ds 0%N.

Fixpoint str_eqb (a b : str) : bool :=
  match a, b with
  | [], [] => true
  | x :: a', y :: b' => Ascii.eqb x y && str_eqb a' b'
  | _, _ => false
  end.

(** [m * 10 ^ e] *)
Definition scale10 (m : N) (e : Z) : Q :=
  if 0 <=? e then (Z.of_N m * 10 ^ e) # 1
  else Z.of_N m # Z.to_pos (10 ^ (- e)).

(** The exponent part of a float literal, [("e" | "E") [sign] digitpart],
    when it is all that is left of the text. *)
Definition scan_exponent (s : str) : option Z :=
  match s with
  | [] => Some 0
  | c :: s' =>
      if Ascii.eqb (lower c) "e"%char then
        let (neg, s'') := split_sign s' in
        let (ds, rest) := scan_digits s'' in
        match ds, rest with
        | _ :: _, [] =>
            let e := Z.of_N (digits_value ds) in
            Some (if neg then - e else e)
        | _, _ => None
        end
      else None
  end.

(** [float(s)] for a text [s]; [None] is [ValueError]. *)
Definition float_of_str (s : str) : option float :=
  let (neg, body) := split_sign (strip s) in
  let low := map lower body in
  if str_eqb low (text "inf") || str_eqb low (text "infinity")
  then Some (Inf neg)
  else if str_eqb low (text "nan") then Some NaN
  else
    let (ip, r1) := scan_digits body in
    let (fp, r2) :=
      match r1 with
      | c :: r => if Ascii.eqb c "."%char then scan_digits r else ([], r1)
      | [] => ([], r1)
      end in
    match ip ++ fp with
    | [] => None
    | _ :: _ =>
        match scan_exponent r2 with
        | Some e =>
            let q := scale10 (digits_value (ip ++ fp)) (e - len fp) in
            Some (Fin (Qred (if neg then - q else q)%Q))
        | None => None
        end
    end.

(** [s.split(sep)] for a separator [sep] of one character: the parts of
    [s] between the occurrences of [sep], empty parts included. *)
Fixpoint split (s : str) (sep : ascii) : list str :=
  match s with
  | [] => [[]]
  | c :: s' =>
      if Ascii.eqb c sep then [] :: split s' sep
      else match split s' sep with
           | part :: parts => (c :: part) :: parts
           | [] => [[c]]
           end
  end.

End Py.

(** ** The [json] module *)
Module Json.
Import Py.

(** What [json.loads] returns: [None], [bool], [int], [float], [str],
    [list] and [dict] objects. A [dict] keeps its keys in insertion order,
    each of them once. *)
#[warnings="-register-all"]
Inductive value :=
| Null
| Bool (b : bool)
| Int (z : Z)
| Float (f : float)
| Str (s : str)
| List (items : list value)
| Dict (entries : list (str * value)).

(** [d.get(k)], with [None] for an absent key. *)
Fixpoint dict_get (k : str) (d : list (str * value)) : option value :=
  match d with
  | [] => None
  | (k', v) :: d' => if str_eqb k k' then Some v else dict_get k d'
  end.

(** [d[k] = v] *)
Fixpoint dict_set (k : str) (v : value) (d : list (str * value))
  : list (str * value) :=
  match d with
  | [] => [(k, v)]
  | (k', v') :: d' =>
      if str_eqb k k' then (k, v) :: d' else (k', v') :: dict_set k v d'
  end.

(** [key in data], where [key] is a string. *)
Definition contains (key : str) (data : value) : result bool :=
  match data with
  | Dict d => Ok (match dict_get key d with Some _ => true | None => false end)
  | List l =>
      Ok (existsb (fun v => match v with
                            | Str s => str_eqb s key
                            | _ => false
                            end) l)
  | Str s => Ok (Py.contains s key)
  | _ => Raise TypeError
  end.

(** [data[key]], where [key] is a string. *)
Definition getitem (data : value) (key : str) : result value :=
  match data with
  | Dict d =>
      match dict_get key d with
      | Some v => Ok v
      | None => Raise KeyError
      end
  | _ => Raise TypeError
  end.

(** *** Lexical analysis *)

Inductive token :=
| LBrace | RBrace | LBracket | RBracket | Comma | Colon
| Quoted (s : str)
| Atom (lexeme : str).

(** Where the scanner is: between tokens, in a number or a name, in a
    string, after a backslash in a string, or in the four hexadecimal
    digits of a [\u] escape. Texts are collected in reverse. *)
Inductive mode :=
| Between
| InAtom (lexeme : str)
| InStr (chars : str)
| Escape (chars : str)
| Hex (chars : str) (more : nat) (code : N).

Definition is_json_space (c : ascii) : bool :=
  let n := N_of_ascii c in ((n =? 32) || (n =? 9) || (n =? 10) || (n =? 13))%N.

Definition is_letter (c : ascii) : bool :=
  let n := N_of_ascii (lower c) in ((97 <=? n) && (n <=? 122))%N.

Definition is_atom_char (c : ascii) : bool :=
  is_digit c || is_letter c || Ascii.eqb c "-"%char || Ascii.eqb c "+"%char
  || Ascii.eqb c "."%char.

Definition punctuation (c : ascii) : option token :=
  if Ascii.eqb c "{"%char then Some LBrace
  else if Ascii.eqb c "}"%char then Some RBrace
  else if Ascii.eqb c "["%char then Some LBracket
  else if Ascii.eqb c "]"%char then Some RBracket
  else if Ascii.eqb c ","%char then Some Comma
  else if Ascii.eqb c ":"%char then Some Colon
  else None.

(** The character a one-letter escape stands for. *)
Definition escaped (c : ascii) : option ascii :=
  if Ascii.eqb c dquote then Some dquote
  else if Ascii.eqb c "\"%char then Some "\"%char
  else if Ascii.eqb c "/"%char then Some "/"%char
  else if Ascii.eqb c "b"%char then Some "008"%char
  else if Ascii.eqb c "f"%char then Some "012"%char
  else if Ascii.eqb c "n"%char then Some "010"%char
  else if Ascii.eqb c "r"%char then Some "013"%char
  else if Ascii.eqb c "t"%char then Some "009"%char
  else None.

Definition hex_value (c : ascii) : option N :=
  let n := N_of_ascii (lower c) in
  match digit_of_ascii c with
  | Some d => Some d
  | None => if ((97 <=? n) && (n <=? 102))%N then Some (n - 87)%N else None
  end.

(** The tokens of a text, [None] when it has none ([JSONDecodeError]): a
    string must be closed and hold no control character and no escape but
    those of JSON; outside strings only white space, punctuation and the
    characters of numbers and names occur. An escape [\uXXXX] for a code
    point above 255, which a text of this development cannot hold, is
    refused as well. *)
Fixpoint lex (m : mode) (out : list token) (s : str) : option (list token) :=
  match s with
  | [] =>
      match m with
      | Between => Some (rev out)
      | InAtom a => Some (rev (Atom (rev a) :: out))
      | _ => None
      end
  | c :: s' =>
      match m with
      | InStr acc =>
          if Ascii.eqb c dquote then lex Between (Quoted (rev acc) :: out) s'
          else if Ascii.eqb c "\"%char then lex (Escape acc) out s'
          else if (N_of_ascii c <? 32)%N then None
          else lex (InStr (c :: acc)) out s'
      | Escape acc =>
          match escaped c with
          | Some e => lex (InStr (e :: acc)) out s'
          | None =>
              if Ascii.eqb c "u"%char then lex (Hex acc 3 0%N) out s' else None
          end
      | Hex acc more code =>
          match hex_value c with
          | Some d =>
              let code' := (code * 16 + d)%N in
              match more with
              | S more' => lex (Hex acc more' code') out s'
              | O =>
                  if (code' <? 256)%N
                  then lex (InStr (ascii_of_N code' :: acc)) out s'
                  else None
              end
          | None => None
          end
      | Between | InAtom _ =>
          let a := match m with InAtom a => a | _ => [] end in
          if is_atom_char c then lex (InAtom (c :: a)) out s'
          else
            let out' := match m with
                        | InAtom a => Atom (rev a) :: out
                        | _ => out
                        end in
            if is_json_space c then lex Between out' s'
            else if Ascii.eqb c dquote then lex (InStr []) out' s'
            else match punctuation c with
                 | Some t => lex Between (t :: out') s'
                 | None => None
                 end
      end
  end.

(** *** Numbers and names *)

(** The longest prefix of decimal digits, and what follows it. *)
Fixpoint span_digits (s : str) : str * str :=
  match s with
  | c :: s' =>
      if is_digit c then let r := span_digits s' in (c :: r.1, r.2)
      else ([], s)
  | [] => ([], [])
  end.

(** A number: an optional minus; an integer part, which is 0 or starts with
    a digit other than 0; an optional fraction, a point and one digit or
    more; an optional exponent, e or E, an optional sign and one digit or
    more. It is an [int] when it has neither fraction nor exponent, a
    [float] otherwise. *)
Definition number (a : str) : option value :=
  let (neg, body) :=
    match a with
    | c :: a' => if Ascii.eqb c "-"%char then (true, a') else (false, a)
    | [] => (false, a)
    end in
  let (ip, r1) := span_digits body in
  let int_ok :=
    match ip with
    | [] => false
    | c :: ip' => negb (Ascii.eqb c "0"%char) || match ip' with [] => true | _ => false end
    end in
  let frac :=
    match r1 with
    | c :: r =>
        if Ascii.eqb c "."%char then
          let (fp, r2) := span_digits r in
          match fp with [] => None | _ => Some (Some fp, r2) end
        else Some (None, r1)
    | [] => Some (None, r1)
    end in
  match frac with
  | None => None
  | Some (fp, r2) =>
      let expo :=
        match r2 with
        | [] => Some None
        | c :: r =>
            if Ascii.eqb (lower c) "e"%char then
              let (eneg, r') := split_sign r in
              let (ds, rest) := span_digits r' in
              match ds, rest with
              | _ :: _, [] =>
                  let e := Z.of_N (digits_value ds) in
                  Some (Some (if eneg then - e else e))
              | _, _ => None
              end
            else None
        end in
      match expo with
      | None => None
      | Some e =>
          if negb int_ok then None
          else
            match fp, e with
            | None, None =>
                let n := Z.of_N (digits_value ip) in
                Some (Int (if neg then - n else n))
            | _, _ =>
                let f := default [] fp in
                let q := scale10 (digits_value (ip ++ f)) (default 0 e - len f) in
                Some (Float (Fin (Qred (if neg then - q else q)%Q)))
            end
      end
  end.

Definition atom_value (a : str) : option value :=
  if str_eqb a (text "null") then Some Null
  else if str_eqb a (text "true") then Some (Bool true)
  else if str_eqb a (text "false") then Some (Bool false)
  else if str_eqb a (text "NaN") then Some (Float NaN)
  else if str_eqb a (text "Infinity") then Some (Float (Inf false))
  else if str_eqb a (text "-Infinity") then Some (Float (Inf true))
  else number a.

(** *** Syntax analysis *)

(** A container under construction: the items of a list, in reverse; the
    entries of a dict and the key whose value is read. *)
Inductive frame :=
| InList (items : list value)
| InDict (entries : list (str * value)) (key : str).

(** What may come next. *)
Inductive expect :=
| AValue
| AValueOrEnd
| AKeyOrEnd
| AKey
| AColon
| ASepOrEnd
| Finished (v : value).

(** A value [v] is complete under the containers [stack]. *)
Definition complete (v : value) (stack : list frame) : list frame * expect :=
  match stack with
  | [] => ([], Finished v)
  | InList items :: st => (InList (v :: items) :: st, ASepOrEnd)
  | InDict d k :: st => (InDict (dict_set k v d) k :: st, ASepOrEnd)
  end.

Definition step (t : token) (stack : list frame) (e : expect)
  : option (list frame * expect) :=
  match e, t with
  | (AValue | AValueOrEnd), Quoted s => Some (complete (Str s) stack)
  | (AValue | AValueOrEnd), Atom a =>
      match atom_value a with
      | Some v => Some (complete v stack)
      | None => None
      end
  | (AValue | AValueOrEnd), LBracket => Some (InList [] :: stack, AValueOrEnd)
  | (AValue | AValueOrEnd), LBrace => Some (InDict [] [] :: stack, AKeyOrEnd)
  | AValueOrEnd, RBracket =>
      match stack with
      | InList items :: st => Some (complete (List (rev items)) st)
      | _ => None
      end
  | (AKeyOrEnd | AKey), Quoted k =>
      match stack with
      | InDict d _ :: st => Some (InDict d k :: st, AColon)
      | _ => None
      end
  | AKeyOrEnd, RBrace =>
      match stack with
      | InDict d _ :: st => Some (complete (Dict d) st)
      | _ => None
      end
  | AColon, Colon => Some (stack, AValue)
  | ASepOrEnd, Comma =>
      match stack with
      | InList _ :: _ => Some (stack, AValue)
      | InDict _ _ :: _ => Some (stack, AKey)
      | [] => None
      end
  | ASepOrEnd, RBracket =>
      match stack with
      | InList items :: st => Some (complete (List (rev items)) st)
      | _ => None
      end
  | ASepOrEnd, RBrace =>
      match stack with
      | InDict d _ :: st => Some (complete (Dict d) st)
      | _ => None
      end
  | _, _ => None
  end.

Fixpoint parse (ts : list token) (stack : list frame) (e : expect)
  : option value :=
  match ts with
  | [] => match e with Finished v => Some v | _ => None end
  | t :: ts' =>
      match step t stack e with
      | Some (stack', e') => parse ts' stack' e'
      | None => None
      end
  end.

(** [json.loads(s)]; [None] is [JSONDecodeError], a [ValueError]. *)
Definition loads (s : str) : option value :=
  match lex Between [] s with
  | Some ts => parse ts [] AValue
  | None => None
  end.

End Json.

(** ** [hr_little_api/json_api.py] *)
Module JsonApi.
Import Py.

(** A [uuid.UUID] is given by its 128-bit integer. [hex_digits width n acc]
    writes the [width] low hexadecimal digits of [n] in front of [acc]: with
    width 32 it is ['%032x' % n]. *)
Definition hex_digit (d : N) : ascii :=
  if (d <? 10)%N then ascii_of_N (48 + d) else ascii_of_N (87 + d).

Fixpoint hex_digits (width : nat) (n : N) (acc : str) : str :=
  match width with
  | O => acc
  | S w => hex_digits w (n / 16) (hex_digit (n mod 16) :: acc)
  end.

(** [str(u)] for a UUID [u]: the 32 digits in groups of 8, 4, 4, 4 and 12. *)
Definition str_of_uuid (u : N) : str :=
  let hex := hex_digits 32 u [] in
  slice hex None (Some 8) ++ text "-" ++ slice hex (Some 8) (Some 12)
  ++ text "-" ++ slice hex (Some 12) (Some 16) ++ text "-"
  ++ slice hex (Some 16) (Some 20) ++ text "-" ++ slice hex (Some 20) None.

(** [generate_id()], where [u] is what [uuid.uuid1()] returns. *)
Definition generate_id (u : N) : str :=
  text "cb." ++ slice (replace (str_of_uuid u) (text "-") []) None (Some (-10)).

Definition json_length (msg_body : str) : result str :=
  let length := len msg_body in
  if length >? 4090 then Raise ValueError
  else Ok (zfill (str_of_Z length) 6).

(** [json_length(msg_body) + msg_body], the last line of every command
    below. *)
Definition framed (msg_body : str) : result str :=
  match json_length msg_body with
  | Ok prefix => Ok (prefix ++ msg_body)
  | Raise e => Raise e
  end.

Definition echo_cmd : result str :=
  let msg_body := jtext "{'cmd':'echo'}" in
  framed msg_body.

Definition push_ping_cmd : result str :=
  let msg_body := jtext "{'cmd':'pushping'}" in
  framed msg_body.

Definition voltage_cmd : result str :=
  let msg_body := jtext "{'cmd':'voltage'}" in
  framed msg_body.

Definition switch_to_ble_cmd : result str :=
  let msg_body := jtext "{'cmd':'switch_to_ble'}" in
  framed msg_body.

Definition activity_cmd (cmd : str) : result str :=
  let msg_body :=
    jtext "{'cmd':'activity.recieved','data':{'output':'" ++ cmd ++ jtext "'}}" in
  framed msg_body.

End JsonApi.

(** ** [hr_little_api/builders.py] *)
Module Builders.
Import Py.

Inductive CallbackType := CallbackType_start | CallbackType_end.

Definition CallbackType_value (t : CallbackType) : str :=
  match t with
  | CallbackType_start => text "TS"
  | CallbackType_end => text "TE"
  end.

Inductive WaitType :=
| wait_for_motors
| wait_for_motors_and_speaking
| wait
| wait_for_say_start
| wait_for_say_done.

(** The interface [CommandBuilder]: its method [build]. The method
    [duration], which only the walking actions call, is left out. *)
Class CommandBuilder (B : Type) := build : B -> str.

Record WaitCommandBuilder := {
  wait_type : WaitType;
  seconds : float
}.

Section Wait.
(** ['{}'.format(x)] for a float [x]; the text of a float is left open. *)
Variable format_float : float -> str.

Definition WaitCommandBuilder_COMMANDS (t : WaitType) (arg : str) : str :=
  match t with
  | wait_for_motors => text "<PM>"
  | wait_for_motors_and_speaking => text "<PA>"
  | wait => text "<PA=" ++ arg ++ text ">"
  | wait_for_say_start => text "<SS>"
  | wait_for_say_done => text "<PS>"
  end.

Definition WaitCommandBuilder_build (self : WaitCommandBuilder) : str :=
  match wait_type self with
  | wait => WaitCommandBuilder_COMMANDS wait (format_float (seconds self))
  | t => WaitCommandBuilder_COMMANDS t []
  end.
End Wait.

Record CallbackCommandBuilder := {
  callback_type : CallbackType;
  callback_id : str
}.

Definition CallbackCommandBuilder_build (self : CallbackCommandBuilder) : str :=
  text "<" ++ CallbackType_value (callback_type self) ++ text "="
  ++ callback_id self ++ text ">".

Record CommandListBuilder (B : Type) := { commands : list B }.
Arguments commands {B} _.

Definition CommandListBuilder_build {B} `{CommandBuilder B}
    (self : CommandListBuilder B) : str :=
  concat (map build (commands self)).

Record SayCommandBuilder := {
  say_text : str;
  wpm : Z
}.

Definition SayCommandBuilder_build (self : SayCommandBuilder) : str :=
  say_text self.

#[export] Instance CallbackCommandBuilder_is_builder
  : CommandBuilder CallbackCommandBuilder := CallbackCommandBuilder_build.
#[export] Instance CommandListBuilder_is_builder {B} `{CommandBuilder B}
  : CommandBuilder (CommandListBuilder B) := CommandListBuilder_build.
#[export] Instance SayCommandBuilder_is_builder
  : CommandBuilder SayCommandBuilder := SayCommandBuilder_build.

(** [SayCommandBuilder(text, wpm)]: the check of the constructor. *)
Definition SayCommandBuilder_init (text : str) (wpm : Z)
  : result SayCommandBuilder :=
  if wpm <=? 0 then Raise ValueError
  else Ok {| say_text := text; wpm := wpm |}.

(** [SayCommandBuilder.duration], in seconds. *)
Definition SayCommandBuilder_duration (self : SayCommandBuilder) : Q :=
  let num_words := Z.of_nat (length (split (say_text self) " "%char)) in
  let seconds := ((num_words # 1) / (wpm self # 1) * (60 # 1))%Q in
  seconds.

Inductive WalkDirection :=
| WalkDirection_forward
| WalkDirection_backward
| WalkDirection_left
| WalkDirection_right.

Record WalkCommandBuilder := {
  steps : Z;
  direction : WalkDirection
}.

Definition WalkCommandBuilder_STEP_TIMES (d : WalkDirection) : Q :=
  match d with
  | WalkDirection_forward => 23 # 10
  | WalkDirection_backward => 24 # 10
  | WalkDirection_left => 11 # 10
  | WalkDirection_right => 11 # 10
  end.

Definition WalkCommandBuilder_COMMANDS (d : WalkDirection) (arg : str) : str :=
  match d with
  | WalkDirection_forward => text "<WK=W2," ++ arg ++ text ">"
  | WalkDirection_backward => text "<WK=WB," ++ arg ++ text ">"
  | WalkDirection_left => text "<WK=WL," ++ arg ++ text ">"
  | WalkDirection_right => text "<WK=WR," ++ arg ++ text ">"
  end.

(** [WalkCommandBuilder(direction, steps)]: the check of the constructor. *)
Definition WalkCommandBuilder_init (direction : WalkDirection) (steps : Z)
  : result WalkCommandBuilder :=
  if negb ((0 <? steps) && (steps <? 11)) then Raise ValueError
  else Ok {| steps := steps; direction := direction |}.

Definition WalkCommandBuilder_duration (self : WalkCommandBuilder) : Q :=
  (WalkCommandBuilder_STEP_TIMES (direction self) * (steps self # 1))%Q.

Definition WalkCommandBuilder_build (self : WalkCommandBuilder) : str :=
  let steps := if steps self =? 1 then 0 else steps self in
  let cmd := WalkCommandBuilder_COMMANDS (direction self) (str_of_Z steps) in
  cmd.

#[export] Instance WalkCommandBuilder_is_builder
  : CommandBuilder WalkCommandBuilder := WalkCommandBuilder_build.

End Builders.

(** ** [hr_little_api/functional.py] *)
Module Functional.
Import Py Builders.

Definition say (text : str) : SayCommandBuilder :=
  {| say_text := text; wpm := 112 |}.

Definition command_list {B} (commands : list B) : CommandListBuilder B :=
  let cmd_list := commands in
  {| commands := cmd_list |}.

Definition wait_for_motors_and_speaking : WaitCommandBuilder :=
  {| wait_type := Builders.wait_for_motors_and_speaking; seconds := Fin 0 |}.

Definition callback_start (callback_id : str) : CallbackCommandBuilder :=
  {| callback_type := CallbackType_start; callback_id := callback_id |}.

Definition callback_end (callback_id : str) : CallbackCommandBuilder :=
  {| callback_type := CallbackType_end; callback_id := callback_id |}.

Definition walk_forward (steps : Z) : result WalkCommandBuilder :=
  WalkCommandBuilder_init WalkDirection_forward steps.

Definition walk_backward (steps : Z) : result WalkCommandBuilder :=
  WalkCommandBuilder_init WalkDirection_backward steps.

Definition walk_left (steps : Z) : result WalkCommandBuilder :=
  WalkCommandBuilder_init WalkDirection_left steps.

Definition walk_right (steps : Z) : result WalkCommandBuilder :=
  WalkCommandBuilder_init WalkDirection_right steps.

End Functional.

(** ** [hr_little_api/robot.py] *)
Module Robot.
Import Py Builders.

Inductive Animation :=
| right_arm_down | right_arm_point | head_down | head_middle | head_up
| head_turn_left | head_turn_middle | head_turn_right | close_mouth
| open_mouth | poke_tounge | eye_lid_open | eye_lid_close | raise_eyebrows
| frown_eyebrows | smile | mouth_neutral | mouth_frown | reset | go_crazy
| go_crazy2 | go_crazy3 | awkward | cute1 | cute2 | sleep | sleeping | sleepy
| tell_a_joke | wake_up | worry.

(** A completion callback: a function of the caller, known by a number, or
    the bound method [Robot._set_action_done]. *)
Inductive Callable :=
| done_cb (n : nat)
| Robot_set_action_done.

(** An [ActionHandle] object. [event_] is the flag of its
    [threading.Event]; [timer_started] tells that its [threading.Timer] was
    started. *)
Record ActionHandle := {
  id : str;
  callbacks : list Callable;
  timeout : option Q;
  event_ : bool;
  timer_started : bool
}.

Inductive Level := debug | warn | error.

Inductive Message :=
| data_received (msg : str)
| error_decoding (msg : str)
| handle_not_found (action_id : str)
| trigger_received (trigger : str)
| unknown_trigger (trigger : str)
| keeping_alive
| timeout_not_set.

(** What the robot object does to the outside, and two marks: the calls of
    the completion callbacks and the calls of [Robot._update_state]. *)
Inductive Event :=
| Sent (message : str)
| Logged (level : Level) (message : Message)
| Called (cb : Callable)
| Updated (data : Json.value).

(** The fields of the [Robot] object, the [ActionHandle] objects it has
    created ([handles]; a handle is referred to by its position there), the
    time [time.time()] returns ([clock]) and the events so far, the latest
    last. *)
Record World := {
  version : Json.value;
  voltage : float;
  _keep_alive_secs : Q;
  _action_handles : gmap str (Z * nat);
  _is_action_active : bool;
  _is_running : bool;
  _last_cmd_time : Q;
  handles : list ActionHandle;
  clock : Q;
  trace : list Event
}.

(** [Robot.__init__] *)
Definition Robot_init : World := {|
  version := Json.Str [];
  voltage := NaN;
  _keep_alive_secs := 9;
  _action_handles := ∅;
  _is_action_active := false;
  _is_running := false;
  _last_cmd_time := 0;
  handles := [];
  clock := 0;
  trace := []
|}.

Definition set_version (v : Json.value) (w : World) : World :=
  {| version := v; voltage := voltage w;
     _keep_alive_secs := _keep_alive_secs w;
     _action_handles := _action_handles w;
     _is_action_active := _is_action_active w; _is_running := _is_running w;
     _last_cmd_time := _last_cmd_time w; handles := handles w;
     clock := clock w; trace := trace w |}.

Definition set_voltage (x : float) (w : World) : World :=
  {| version := version w; voltage := x;
     _keep_alive_secs := _keep_alive_secs w;
     _action_handles := _action_handles w;
     _is_action_active := _is_action_active w; _is_running := _is_running w;
     _last_cmd_time := _last_cmd_time w; handles := handles w;
     clock := clock w; trace := trace w |}.

Definition set_action_handles (m : gmap str (Z * nat)) (w : World) : World :=
  {| version := version w; voltage := voltage w;
     _keep_alive_secs := _keep_alive_secs w;
     _action_handles := m;
     _is_action_active := _is_action_active w; _is_running := _is_running w;
     _last_cmd_time := _last_cmd_time w; handles := handles w;
     clock := clock w; trace := trace w |}.

Definition set_is_action_active (b : bool) (w : World) : World :=
  {| version := version w; voltage := voltage w;
     _keep_alive_secs := _keep_alive_secs w;
     _action_handles := _action_handles w;
     _is_action_active := b; _is_running := _is_running w;
     _last_cmd_time := _last_cmd_time w; handles := handles w;
     clock := clock w; trace := trace w |}.

Definition set_last_cmd_time (t : Q) (w : World) : World :=
  {| version := version w; voltage := voltage w;
     _keep_alive_secs := _keep_alive_secs w;
     _action_handles := _action_handles w;
     _is_action_active := _is_action_active w; _is_running := _is_running w;
     _last_cmd_time := t; handles := handles w;
     clock := clock w; trace := trace w |}.

Definition set_handles (hs : list ActionHandle) (w : World) : World :=
  {| version := version w; voltage := voltage w;
     _keep_alive_secs := _keep_alive_secs w;
     _action_handles := _action_handles w;
     _is_action_active := _is_action_active w; _is_running := _is_running w;
     _last_cmd_time := _last_cmd_time w; handles := hs;
     clock := clock w; trace := trace w |}.

Definition set_trace (tr : list Event) (w : World) : World :=
  {| version := version w; voltage := voltage w;
     _keep_alive_secs := _keep_alive_secs w;
     _action_handles := _action_handles w;
     _is_action_active := _is_action_active w; _is_running := _is_running w;
     _last_cmd_time := _last_cmd_time w; handles := handles w;
     clock := clock w; trace := tr |}.

(** *** The monad of the methods

    A method takes the world to an outcome and the world it leaves: it
    returns, it raises an exception (what it did before remains), or the
    model ran out of fuel. *)
Inductive outcome (A : Type) :=
| Returned (a : A)
| Raised (e : exn)
| OutOfFuel.
Arguments Returned {A} a.
Arguments Raised {A} e.
Arguments OutOfFuel {A}.

Definition M (A : Type) : Type := World -> outcome A * World.

#[export] Instance M_ret : MRet M := fun A a w => (Returned a, w).

#[export] Instance M_bind : MBind M := fun A B f c w =>
  match c w with
  | (Returned a, w') => f a w'
  | (Raised e, w') => (Raised e, w')
  | (OutOfFuel, w') => (OutOfFuel, w')
  end.

Definition get : M World := fun w => (Returned w, w).
Definition modify (f : World -> World) : M unit := fun w => (Returned tt, f w).
Definition raise {A} (e : exn) : M A := fun w => (Raised e, w).
Definition out_of_fuel {A} : M A := fun w => (OutOfFuel, w).

(** The result of a function that may raise, in the monad. *)
Definition lift {A} (r : result A) : M A :=
  match r with
  | Ok a => mret a
  | Raise e => raise e
  end.

(** [None] raises [e]. *)
Definition or_raise {A} (e : exn) (o : option A) : M A :=
  match o with
  | Some a => mret a
  | None => raise e
  end.

(** [try: body except ValueError: handler] *)
Definition try_except_ValueError (body handler : M unit) : M unit := fun w =>
  match body w with
  | (Raised ValueError, w') => handler w'
  | r => r
  end.

Definition emit (e : Event) : M unit :=
  modify (fun w => set_trace (trace w ++ [e]) w).

Definition log (level : Level) (message : Message) : M unit :=
  emit (Logged level message).

(** [self._transport.send(message)]: a failure of the socket is logged and
    swallowed there, so the call always returns. *)
Definition send (message : str) : M unit := emit (Sent message).

(** [for x in l: body x] *)
Fixpoint for_each {A} (l : list A) (body : A -> M unit) : M unit :=
  match l with
  | [] => mret tt
  | x :: l' => body x;; for_each l' body
  end.

(** *** [ActionHandle] *)

(** [ActionHandle(timeout)]; [u] is the UUID that [generate_id] draws. The
    new object is the last of [handles]. *)
Definition ActionHandle_init (u : N) (timeout : option Q) : M nat :=
  w ← get;
  let self := {| id := JsonApi.generate_id u; callbacks := [];
                 timeout := timeout; event_ := false;
                 timer_started := false |} in
  modify (set_handles (handles w ++ [self]));;
  mret (length (handles w)).

(** A change of the object that [h] refers to. *)
Definition update_handle (h : nat) (f : ActionHandle -> ActionHandle) : M unit :=
  modify (fun w => set_handles (alter f h (handles w)) w).

Definition add_callback (h : nat) (done_cb : option Callable) : M unit :=
  match done_cb with
  | Some cb =>
      update_handle h (fun self =>
        {| id := id self; callbacks := callbacks self ++ [cb];
           timeout := timeout self; event_ := event_ self;
           timer_started := timer_started self |})
  | None => mret tt
  end.

Definition start_timer (h : nat) : M unit :=
  w ← get;
  match handles w !! h with
  | Some self =>
      match timeout self with
      | Some _ =>
          update_handle h (fun self =>
            {| id := id self; callbacks := callbacks self;
               timeout := timeout self; event_ := event_ self;
               timer_started := true |})
      | None => log warn timeout_not_set
      end
  | None => mret tt
  end.

(** [ActionHandle.wait] returns when the event is set, and blocks until
    then. *)
Definition wait_returns (h : nat) (w : World) : bool :=
  match handles w !! h with
  | Some self => event_ self
  | None => false
  end.

(** [handle.id] *)
Definition handle_id (h : nat) : M str :=
  w ← get;
  mret (match handles w !! h with Some self => id self | None => [] end).

Definition _set_action_start : M unit :=
  modify (set_is_action_active true).

Definition _set_action_done : M unit :=
  w ← get;
  modify (set_last_cmd_time (clock w));;
  modify (set_is_action_active false).

(** The call [cb()]. What a function of the caller does is not known; its
    call is recorded. *)
Definition call (cb : Callable) : M unit :=
  emit (Called cb);;
  match cb with
  | done_cb _ => mret tt
  | Robot_set_action_done => _set_action_done
  end.

(** [ActionHandle.done] *)
Definition done (h : nat) : M unit :=
  update_handle h (fun self =>
    {| id := id self; callbacks := callbacks self;
       timeout := timeout self; event_ := true;
       timer_started := timer_started self |});;
  w ← get;
  match handles w !! h with
  | Some self => for_each (callbacks self) call
  | None => mret tt
  end.

(** What the timer of a handle runs when its time has passed. *)
Definition timer_fires (h : nat) : M unit := done h.

(** *** [Robot] *)

Definition _add_action_handle (handle : nat) : M unit :=
  w ← get;
  match handles w !! handle with
  | Some self =>
      modify (set_action_handles (<[id self := (0, handle)]> (_action_handles w)))
  | None => mret tt
  end.

Definition _set_action_handle_done (action_id : str) : M unit :=
  w ← get;
  match _action_handles w !! action_id with
  | Some (count, ah) =>
      let count := count + 1 in
      if count >? 1 then
        modify (set_action_handles (delete action_id (_action_handles w)));;
        done ah
      else
        modify (set_action_handles (<[action_id := (count, ah)]> (_action_handles w)))
  | None => log warn (handle_not_found action_id)
  end.

(** [a > b] for two times. *)
Definition Qgtb (a b : Q) : bool := negb (Qle_bool a b).

(** One turn of the loop of [Robot._keep_alive], up to the wait that ends
    it; [false] when the loop is left. *)
Definition _keep_alive_turn : M bool :=
  w ← get;
  if _is_running w then
    let secs_since_last_cmd := (clock w - _last_cmd_time w)%Q in
    (if negb (_is_action_active w)
        && Qgtb secs_since_last_cmd (_keep_alive_secs w)
     then
       cmd ← lift (JsonApi.activity_cmd (text " "));
       send cmd;;
       w' ← get;
       modify (set_last_cmd_time (clock w'));;
       log debug keeping_alive
     else mret tt);;
    mret true
  else mret false.

Definition _update_state (data : Json.value) : M unit :=
  emit (Updated data);;
  has_device ← lift (Json.contains (text "device") data);
  w ← get;
  (if (has_device : bool)
      && match version w with Json.Str [] => true | _ => false end
   then
     device ← lift (Json.getitem data (text "device"));
     v ← lift (Json.getitem device (text "version"));
     modify (set_version v)
   else mret tt);;
  has_trigger ← lift (Json.contains (text "trigger") data);
  if has_trigger : bool then
    trigger ← lift (Json.getitem data (text "trigger"));
    match trigger with
    | Json.Str trigger =>
        if startswith trigger (text "voltage.") then
          x ← or_raise ValueError
                (float_of_str (replace trigger (text "voltage.") []));
          modify (set_voltage (div10 x))
        else if startswith trigger (text "cb.") then
          log debug (trigger_received trigger);;
          _set_action_handle_done trigger
        else log debug (unknown_trigger trigger)
    | _ => raise AttributeError
    end
  else mret tt.

(** The loop of [Robot._data_received_cb]. Every turn that does not raise
    moves [prev_index] forward, so [fuel] turns are enough when [fuel]
    exceeds the length of [msg]. *)
Fixpoint _data_received_loop (fuel : nat) (msg : str) (msg_len prev_index : Z)
  : M unit :=
  match fuel with
  | O => out_of_fuel
  | S fuel' =>
      if prev_index <? msg_len then
        let start_index :=
          prev_index + find (slice msg (Some prev_index) None) (text "{") in
        sub_msg_len ← or_raise ValueError
                        (int (slice msg (Some prev_index) (Some start_index)));
        let end_index := start_index + sub_msg_len in
        let sub_msg := slice msg (Some start_index) (Some end_index) in
        data ← or_raise ValueError (Json.loads sub_msg);
        _update_state data;;
        let prev_index := end_index in
        _data_received_loop fuel' msg msg_len prev_index
      else mret tt
  end.

Definition _data_received_cb (msg : str) : M unit :=
  log debug (data_received msg);;
  try_except_ValueError
    (let prev_index := 0 in
     let msg_len := len msg in
     _data_received_loop (S (length msg)) msg msg_len prev_index)
    (log error (error_decoding msg)).

(** The dispatch methods, up to the wait of [block=True]: they return the
    handle. [u] is the UUID that the handle draws, [done_cb] the number of
    the caller's callback. *)
Definition say (u : N) (text : str) (done_cb : option nat) : M nat :=
  _set_action_start;;
  let builder := Functional.say text in
  handle ← ActionHandle_init u None;
  add_callback handle (Robot.done_cb <$> done_cb);;
  add_callback handle (Some Robot_set_action_done);;
  _add_action_handle handle;;
  handle_id ← handle_id handle;
  cmd ← lift (JsonApi.activity_cmd
                (build builder ++ build (Functional.callback_end handle_id)));
  send cmd;;
  mret handle.

Section Dispatch.
(** ['{}'.format(x)] for a float [x], and the builders of the animations,
    [Robot.__animation_map], of a type [B] of builders. *)
Variable format_float : float -> str.
Context {B : Type} `{CommandBuilder B}.
Variable __animation_map : Animation -> B.

Definition animate (u : N) (animation : Animation) (done_cb : option nat)
  : M nat :=
  _set_action_start;;
  let builder := __animation_map animation in
  handle ← ActionHandle_init u None;
  add_callback handle (Robot.done_cb <$> done_cb);;
  add_callback handle (Some Robot_set_action_done);;
  _add_action_handle handle;;
  handle_id ← handle_id handle;
  cmd ← lift (JsonApi.activity_cmd
                (build builder ++ text " "
                 ++ WaitCommandBuilder_build format_float
                      Functional.wait_for_motors_and_speaking
                 ++ build (Functional.callback_end handle_id)));
  send cmd;;
  mret handle.

Definition do (u : N) (commands : list B) (done_cb : option nat) : M nat :=
  _set_action_start;;
  let cmd_list := commands in
  let builder := Functional.command_list cmd_list in
  handle ← ActionHandle_init u None;
  add_callback handle (Robot.done_cb <$> done_cb);;
  add_callback handle (Some Robot_set_action_done);;
  _add_action_handle handle;;
  handle_id ← handle_id handle;
  cmd ← lift (JsonApi.activity_cmd
                (build builder ++ text " "
                 ++ WaitCommandBuilder_build format_float
                      Functional.wait_for_motors_and_speaking
                 ++ build (Functional.callback_end handle_id)));
  send cmd;;
  mret handle.
End Dispatch.

(** The walking actions, up to the wait of [block=True]: their handle is
    completed by its timer and is not put in [_action_handles]. *)
Definition walk_forward (u : N) (steps : Z) (done_cb : option nat) : M nat :=
  _set_action_start;;
  builder ← lift (Functional.walk_forward steps);
  handle ← ActionHandle_init u (Some (WalkCommandBuilder_duration builder));
  add_callback handle (Robot.done_cb <$> done_cb);;
  add_callback handle (Some Robot_set_action_done);;
  cmd ← lift (JsonApi.activity_cmd (build builder));
  send cmd;;
  start_timer handle;;
  mret handle.

Definition walk_backward (u : N) (steps : Z) (done_cb : option nat) : M nat :=
  _set_action_start;;
  builder ← lift (Functional.walk_backward steps);
  handle ← ActionHandle_init u (Some (WalkCommandBuilder_duration builder));
  add_callback handle (Robot.done_cb <$> done_cb);;
  add_callback handle (Some Robot_set_action_done);;
  cmd ← lift (JsonApi.activity_cmd (build builder));
  send cmd;;
  start_timer handle;;
  mret handle.

Definition walk_left (u : N) (steps : Z) (done_cb : option nat) : M nat :=
  _set_action_start;;
  builder ← lift (Functional.walk_left steps);
  handle ← ActionHandle_init u (Some (WalkCommandBuilder_duration builder));
  add_callback handle (Robot.done_cb <$> done_cb);;
  add_callback handle (Some Robot_set_action_done);;
  cmd ← lift (JsonApi.activity_cmd (build builder));
  send cmd;;
  start_timer handle;;
  mret handle.

Definition walk_right (u : N) (steps : Z) (done_cb : option nat) : M nat :=
  _set_action_start;;
  builder ← lift (Functional.walk_right steps);
  handle ← ActionHandle_init u (Some (WalkCommandBuilder_duration builder));
  add_callback handle (Robot.done_cb <$> done_cb);;
  add_callback handle (Some Robot_set_action_done);;
  cmd ← lift (JsonApi.activity_cmd (build builder));
  send cmd;;
  start_timer handle;;
  mret handle.

(** [Robot.wait] on a list of handles returns when the event of every
    handle is set. *)
Definition wait_all_return (action_handles : list nat) (w : World) : bool :=
  forallb (fun handle => wait_returns handle w) action_handles.

End Robot.

(** ** [hr_little_api/transport.py] *)
Module Transport.
Import Py Robot.



End Transport.

(** * Properties *)

Import Py Robot.

(** ** The monad *)

Lemma bind_run {A B} (c : M A) (f : A -> M B) (w : World) :
  (c ≫= f) w = match c w with
               | (Returned a, w') => f a w'
               | (Raised e, w') => (Raised e, w')
               | (OutOfFuel, w') => (OutOfFuel, w')
               end.
Proof. reflexivity. Qed.

(** [n] calls of [c] in a row. *)
Fixpoint times (n : nat) (c : M unit) : M unit :=
  match n with
  | O => mret tt
  | S n' => c;; times n' c
  end.

(** ** Completion handles *)

(** Calling the callbacks of a handle records each call, in their order;
    it returns, and leaves the handles, the registry and the telemetry as
    they are. *)
Lemma for_each_call (cbs : list Callable) (w : World) :
  exists w',
    for_each cbs call w = (Returned tt, w')
    /\ trace w' = trace w ++ map Called cbs
    /\ handles w' = handles w
    /\ _action_handles w' = _action_handles w
    /\ version w' = version w /\ voltage w' = voltage w.
Proof.
  revert w. induction cbs as [|cb cbs IH]; intros w.
  - exists w. simpl. rewrite app_nil_r. done.
  - destruct cb.
    + destruct (IH (set_trace (trace w ++ [Called (done_cb n)]) w))
        as (w' & E & T & Hh & Ha & Hv & Hvo).
      exists w'. split; [exact E|]. simpl in *. rewrite T, <- app_assoc. done.
    + set (w1 := set_is_action_active false
                   (set_last_cmd_time (clock w)
                      (set_trace (trace w ++ [Called Robot_set_action_done]) w))).
      destruct (IH w1) as (w' & E & T & Hh & Ha & Hv & Hvo).
      exists w'. split; [exact E|]. simpl in *. rewrite T, <- app_assoc. done.
Qed.

Definition set_event (self : ActionHandle) : ActionHandle :=
  {| id := id self; callbacks := callbacks self; timeout := timeout self;
     event_ := true; timer_started := timer_started self |}.

(** One call of [done]: the event is set, every callback is called once. *)
Lemma done_run (h : nat) (self : ActionHandle) (w : World) :
  handles w !! h = Some self ->
  exists w',
    done h w = (Returned tt, w')
    /\ trace w' = trace w ++ map Called (callbacks self)
    /\ handles w' = <[h := set_event self]> (handles w)
    /\ _action_handles w' = _action_handles w
    /\ version w' = version w /\ voltage w' = voltage w.
Proof.
  intros Hh.
  assert (Hl : alter (fun s => set_event s) h (handles w) !! h
               = Some (set_event self)).
  { rewrite list_lookup_alter_eq, Hh. done. }
  unfold done, update_handle. rewrite bind_run. cbn [modify].
  rewrite bind_run. cbn [get]. cbn [handles set_handles].
  unfold set_event in Hl. rewrite Hl. cbn [callbacks].
  destruct (for_each_call (callbacks self)
              (set_handles (alter (fun s => set_event s) h (handles w)) w))
    as (w' & E & T & Hh' & Ha & Hv & Hvo).
  exists w'. split; [exact E|]. cbn in *. rewrite T, Hh', Ha, Hv, Hvo.
  repeat split; try done.
  apply list_eq. intros i. destruct (decide (i = h)) as [->|Hne].
  - rewrite list_lookup_alter_eq, Hh.
    rewrite list_lookup_insert_eq; [done|]. by eapply lookup_lt_Some.
  - rewrite list_lookup_alter_ne, list_lookup_insert_ne; done.
Qed.

Lemma wait_returns_after_event (h : nat) (self : ActionHandle) (w w' : World) :
  handles w !! h = Some self ->
  handles w' = <[h := set_event self]> (handles w) ->
  wait_returns h w' = true.
Proof.
  intros Hh E. unfold wait_returns. rewrite E.
  rewrite list_lookup_insert_eq; [done|]. by eapply lookup_lt_Some.
Qed.

(** ** The registry of action handles *)

(** A trigger for an identifier that the registry does not hold: a warning
    is logged, and nothing else changes. *)
Lemma set_action_handle_done_unknown (action_id : str) (w : World) :
  _action_handles w !! action_id = None ->
  _set_action_handle_done action_id w
  = (Returned tt,
     set_trace (trace w ++ [Logged warn (handle_not_found action_id)]) w).
Proof.
  intros Hn. unfold _set_action_handle_done. rewrite bind_run. cbn [get].
  rewrite Hn. done.
Qed.

(** C1. A handle registered at dispatch stays pending after one trigger for
    its identifier: the entry is kept, with the count 1, and nothing else
    changes. The second trigger removes the entry, sets the event of the
    handle and calls each of its callbacks once. A trigger for an identifier
    that the registry does not hold changes nothing but the log. *)
Theorem registry_completes_on_second_trigger
    (w0 : World) (h : nat) (self : ActionHandle) :
  handles w0 !! h = Some self ->
  event_ self = false ->
  let action_id := id self in
  let w1 := (_add_action_handle h w0).2 in
  let first := _set_action_handle_done action_id w1 in
  let second := _set_action_handle_done action_id first.2 in
  _action_handles w1 !! action_id = Some (0, h)
  /\ first = (Returned tt,
              set_action_handles (<[action_id := (1, h)]> (_action_handles w0)) w0)
  /\ wait_returns h first.2 = false
  /\ second.1 = Returned tt
  /\ _action_handles second.2 = delete action_id (_action_handles w0)
  /\ wait_returns h second.2 = true
  /\ trace second.2 = trace w0 ++ map Called (callbacks self)
  /\ forall other w,
       _action_handles w !! other = None ->
       _set_action_handle_done other w
       = (Returned tt,
          set_trace (trace w ++ [Logged warn (handle_not_found other)]) w).
Proof.
  intros Hh Hev action_id w1 first second.
  assert (E1 : w1 = set_action_handles
                      (<[action_id := (0, h)]> (_action_handles w0)) w0).
  { unfold w1, _add_action_handle. rewrite bind_run. cbn [get]. rewrite Hh. done. }
  assert (Ef : first = (Returned tt,
                set_action_handles (<[action_id := (1, h)]> (_action_handles w0)) w0)).
  { unfold first, _set_action_handle_done. rewrite bind_run. cbn [get].
    rewrite E1. cbn [_action_handles set_action_handles].
    rewrite lookup_insert_eq. cbn. rewrite insert_insert_eq. done. }
  split; [rewrite E1; cbn; apply lookup_insert_eq|].
  split; [exact Ef|].
  split; [rewrite Ef; unfold wait_returns; cbn; rewrite Hh; exact Hev|].
  set (w2 := set_action_handles (<[action_id := (1, h)]> (_action_handles w0)) w0).
  set (w3 := set_action_handles (delete action_id (_action_handles w2)) w2).
  destruct (done_run h self w3 Hh) as (w' & Ed & T & Hh' & Ha & _).
  assert (Es : second = (Returned tt, w')).
  { unfold second. rewrite Ef. cbn [snd]. fold w2.
    unfold _set_action_handle_done. rewrite bind_run. cbn [get].
    unfold w2 at 1. cbn [_action_handles set_action_handles].
    rewrite lookup_insert_eq. cbv zeta. change (1 + 1 >? 1) with true. cbv iota.
    rewrite bind_run. cbn [modify]. fold w2. fold w3. exact Ed. }
  rewrite Es. cbn [fst snd].
  split; [done|].
  split; [rewrite Ha; unfold w3, w2; cbn; apply delete_insert_eq|].
  split; [eapply wait_returns_after_event; [exact Hh|exact Hh']|].
  split; [exact T|].
  apply set_action_handle_done_unknown.
Qed.

Definition pending_handle : ActionHandle :=
  {| id := JsonApi.generate_id 7; callbacks := [done_cb 0; Robot_set_action_done];
     timeout := None; event_ := false; timer_started := false |}.

Lemma registry_completes_on_second_trigger_witness :
  let w0 := set_handles [pending_handle] Robot_init in
  let second :=
    _set_action_handle_done (id pending_handle)
      (_set_action_handle_done (id pending_handle) (_add_action_handle 0 w0).2).2 in
  handles w0 !! 0%nat = Some pending_handle
  /\ event_ pending_handle = false
  /\ _action_handles second.2 = delete (id pending_handle) (_action_handles w0)
  /\ trace second.2 = [Called (done_cb 0); Called Robot_set_action_done].
Proof.
  intros w0 second.
  split; [reflexivity|]. split; [reflexivity|].
  pose proof (registry_completes_on_second_trigger w0 0 pending_handle
                eq_refl eq_refl) as H.
  cbv zeta in H. destruct H as (_ & _ & _ & _ & Ha & _ & T & _).
  split; [exact Ha | exact T].
Defined.

(** ** [ActionHandle.done] called more than once *)

Definition one_callback_handle : ActionHandle :=
  {| id := JsonApi.generate_id 7; callbacks := [done_cb 0];
     timeout := Some (2 # 1); event_ := false; timer_started := true |}.

(** C3, as stated, fails: a handle with one callback, completed once by a
    trigger and once by its timer, calls the callback twice. *)
Lemma done_twice_calls_twice :
  let w0 := set_handles [one_callback_handle] Robot_init in
  let w2 := ((done 0;; timer_fires 0) w0).2 in
  trace w2 = [Called (done_cb 0); Called (done_cb 0)]
  /\ trace w2 <> [Called (done_cb 0)].
Proof. split; [reflexivity | discriminate]. Qed.

Lemma times_done (n : nat) (h : nat) (self : ActionHandle) (w : World) :
  handles w !! h = Some self ->
  exists w',
    times n (done h) w = (Returned tt, w')
    /\ trace w' = trace w ++ concat (replicate n (map Called (callbacks self)))
    /\ (handles w' = handles w \/ handles w' = <[h := set_event self]> (handles w))
    /\ ((0 < n)%nat -> handles w' = <[h := set_event self]> (handles w)).
Proof.
  revert self w. induction n as [|n IH]; intros self w Hh.
  - exists w. cbn. rewrite app_nil_r. repeat split; [by left | lia].
  - destruct (done_run h self w Hh) as (w1 & E1 & T1 & H1 & _).
    assert (Hh1 : handles w1 !! h = Some (set_event self)).
    { rewrite H1. apply list_lookup_insert_eq. by eapply lookup_lt_Some. }
    destruct (IH (set_event self) w1 Hh1) as (w' & E & T & Hd & _).
    exists w'. cbn [times]. rewrite bind_run, E1.
    split; [exact E|]. cbn [callbacks set_event] in T.
    split; [rewrite T, T1; cbn; by rewrite <- !app_assoc|].
    assert (handles w' = <[h:=set_event self]> (handles w)) as ->.
    { destruct Hd as [-> | ->]; [done|].
      rewrite H1. rewrite list_insert_insert_eq. done. }
    split; [by right | done].
Qed.

(** C3, amended. Every call of [done], whoever makes it, sets the event, so
    that [wait] returns from the first call on, and calls every registered
    callback once, in the order of registration: after [n] calls each
    callback has been called [n] times. *)
Theorem done_calls_callbacks_each_time
    (n : nat) (h : nat) (self : ActionHandle) (w : World) :
  handles w !! h = Some self ->
  let r := times n (done h) w in
  r.1 = Returned tt
  /\ trace r.2 = trace w ++ concat (replicate n (map Called (callbacks self)))
  /\ ((0 < n)%nat -> wait_returns h r.2 = true).
Proof.
  intros Hh r. destruct (times_done n h self w Hh) as (w' & E & T & _ & Hs).
  unfold r. rewrite E. cbn [fst snd]. repeat split; [exact T|].
  intros Hn. eapply wait_returns_after_event; [exact Hh | by apply Hs].
Qed.

Lemma done_calls_callbacks_each_time_witness :
  let w0 := set_handles [one_callback_handle] Robot_init in
  handles w0 !! 0%nat = Some one_callback_handle
  /\ trace (done 0 w0).2 = [Called (done_cb 0)]
  /\ wait_returns 0 (done 0 w0).2 = true.
Proof.
  intros w0. split; [reflexivity|].
  destruct (done_calls_callbacks_each_time 1 0 one_callback_handle w0 eq_refl)
    as (_ & T & Hw).
  split; [exact T | apply Hw; lia].
Defined.

(** ** The keep-alive loop *)

Lemma Qgtb_lt (a b : Q) : Qgtb a b = true <-> (b < a)%Q.
Proof.
  unfold Qgtb. rewrite negb_true_iff. split.
  - intros Hf. apply Qnot_le_lt. intros Hle.
    apply Qle_bool_iff in Hle. congruence.
  - intros Hlt. destruct (Qle_bool a b) eqn:E; [|done].
    apply Qle_bool_iff in E. exfalso. eapply Qlt_not_le; eauto.
Qed.

(** The inert command of the keep-alive loop, [activity_cmd(" ")]. *)
Definition keep_alive_cmd : str :=
  jtext "000049{'cmd':'activity.recieved','data':{'output':' '}}".

(** C7. A turn of the keep-alive loop sends the inert command and resets
    the time of the last command if and only if no action is active and
    more than the keep-alive period has passed since the last command;
    otherwise it changes nothing. So it never sends while an action is
    active. The period is 9 seconds from the construction of the robot. *)
Theorem keep_alive_sends_iff_idle (w : World) :
  _is_running w = true ->
  let elapsed := (clock w - _last_cmd_time w)%Q in
  let r := _keep_alive_turn w in
  r.1 = Returned true
  /\ (_is_action_active w = false /\ (_keep_alive_secs w < elapsed)%Q ->
      r.2 = set_trace (trace w ++ [Sent keep_alive_cmd; Logged debug keeping_alive])
              (set_last_cmd_time (clock w) w))
  /\ (~ (_is_action_active w = false /\ (_keep_alive_secs w < elapsed)%Q) ->
      r.2 = w)
  /\ (_is_action_active w = true -> r.2 = w)
  /\ _keep_alive_secs Robot_init = 9%Q.
Proof.
  intros Hrun elapsed r.
  assert (Hidle : _is_action_active w = false /\ (_keep_alive_secs w < elapsed)%Q ->
                  r = (Returned true,
                       set_trace (trace w ++ [Sent keep_alive_cmd; Logged debug keeping_alive])
                         (set_last_cmd_time (clock w) w))).
  { intros [Ha Hlt]. apply Qgtb_lt in Hlt.
    unfold r, _keep_alive_turn. rewrite bind_run. cbn [get].
    rewrite Hrun, Ha. fold elapsed. rewrite Hlt.
    replace (trace w ++ [Sent keep_alive_cmd; Logged debug keeping_alive])
      with ((trace w ++ [Sent keep_alive_cmd]) ++ [Logged debug keeping_alive])
      by (rewrite <- app_assoc; reflexivity).
    reflexivity. }
  assert (Hbusy : ~ (_is_action_active w = false /\ (_keep_alive_secs w < elapsed)%Q) ->
                  r = (Returned true, w)).
  { intros Hn. unfold r, _keep_alive_turn. rewrite bind_run. cbn [get].
    rewrite Hrun. fold elapsed.
    destruct (_is_action_active w) eqn:Ha; [reflexivity|].
    destruct (Qgtb elapsed (_keep_alive_secs w)) eqn:Hg; [|reflexivity].
    exfalso. apply Hn. split; [done|]. by apply Qgtb_lt. }
  split.
  { destruct (_is_action_active w) eqn:Ha.
    - rewrite Hbusy; [done|]. intros [? _]. discriminate.
    - destruct (Qgtb elapsed (_keep_alive_secs w)) eqn:Hg.
      + rewrite Hidle; [done|]. split; [done|]. by apply Qgtb_lt.
      + rewrite Hbusy; [done|]. intros [_ Hlt]. apply Qgtb_lt in Hlt. congruence. }
  split; [intros Hc; by rewrite (Hidle Hc)|].
  split; [intros Hc; by rewrite (Hbusy Hc)|].
  split; [|reflexivity].
  intros Ha. rewrite Hbusy; [done|]. intros [? _]. congruence.
Qed.

(** The robot connected at time 0, idle, when the clock shows 9.5: one
    send; none when an action is active. *)
Definition idle_world : World :=
  {| version := Json.Str []; voltage := NaN; _keep_alive_secs := 9;
     _action_handles := ∅; _is_action_active := false; _is_running := true;
     _last_cmd_time := 0; handles := []; clock := 19 # 2; trace := [] |}.

Lemma keep_alive_sends_iff_idle_witness :
  _is_running idle_world = true
  /\ trace (_keep_alive_turn idle_world).2
     = [Sent keep_alive_cmd; Logged debug keeping_alive]
  /\ trace (_keep_alive_turn (set_is_action_active true idle_world)).2 = [].
Proof.
  split; [reflexivity|]. split.
  - destruct (keep_alive_sends_iff_idle idle_world eq_refl) as (_ & Hs & _).
    rewrite Hs; [reflexivity|]. split; [reflexivity|]. reflexivity.
  - destruct (keep_alive_sends_iff_idle (set_is_action_active true idle_world)
                eq_refl) as (_ & _ & _ & Hb & _).
    rewrite Hb; reflexivity.
Defined.

(** ** The length prefix of a message *)

Import JsonApi.

Lemma len_app (a b : str) : len (a ++ b) = len a + len b.
Proof. unfold len. rewrite length_app. lia. Qed.

(** Whether the prefix written for a body of [n] characters has six
    characters, all of them digits, and reads back as [n]. *)
Definition prefix_reads_back (n : nat) : bool :=
  let prefix := zfill (str_of_Z (Z.of_nat n)) 6 in
  (length prefix =? 6)%nat && forallb is_digit prefix
  && match int prefix with
     | Some z => z =? Z.of_nat n
     | None => false
     end.

Lemma prefix_reads_back_upto_4090 : forallb prefix_reads_back (seq 0 4091) = true.
Proof. vm_compute. reflexivity. Qed.

Lemma json_length_ok (msg_body : str) :
  len msg_body <= 4090 ->
  exists prefix,
    json_length msg_body = Ok prefix
    /\ length prefix = 6%nat /\ forallb is_digit prefix = true
    /\ int prefix = Some (len msg_body).
Proof.
  intros Hle. unfold json_length. cbv zeta.
  destruct (len msg_body >? 4090) eqn:E; [lia|].
  eexists. split; [reflexivity|].
  pose proof prefix_reads_back_upto_4090 as H.
  rewrite forallb_forall in H.
  specialize (H (length msg_body)).
  unfold prefix_reads_back in H. fold (len msg_body) in H. cbv zeta in H.
  assert (Hin : In (length msg_body) (seq 0 4091)).
  { apply in_seq. unfold len in Hle. lia. }
  apply H in Hin. apply andb_prop in Hin as [Hin Hi].
  apply andb_prop in Hin as [Hl Hd].
  split; [by apply Nat.eqb_eq|]. split; [exact Hd|].
  destruct (int _); [|discriminate]. f_equal. by apply Z.eqb_eq.
Qed.

Lemma json_length_too_long (msg_body : str) :
  4090 < len msg_body -> json_length msg_body = Raise ValueError.
Proof.
  intros Hlt. unfold json_length. cbv zeta.
  destruct (len msg_body >? 4090) eqn:E; [done|lia].
Qed.

(** The text that [Robot.say] hands to [activity_cmd]. *)
Definition say_fragment (u : N) (said : str) : str :=
  said ++ text "<TE=" ++ generate_id u ++ text ">".

(** *** What the dispatch methods do before they send *)

Definition new_handle (u : N) (cb : option nat) : ActionHandle :=
  {| id := generate_id u;
     callbacks := match cb with Some n => [done_cb n] | None => [] end
                  ++ [Robot_set_action_done];
     timeout := None; event_ := false; timer_started := false |}.

Definition dispatched (u : N) (cb : option nat) (w : World) : World :=
  set_action_handles
    (<[generate_id u := (0, length (handles w))]> (_action_handles w))
    (set_handles (handles w ++ [new_handle u cb])
       (set_is_action_active true w)).

Lemma alter_last {A} (f : A -> A) (l : list A) (x : A) :
  alter f (length l) (l ++ [x]) = l ++ [f x].
Proof.
  replace (length l) with (length l + 0)%nat by lia.
  rewrite alter_app_r. done.
Qed.

Lemma lookup_last {A} (l : list A) (x : A) : (l ++ [x]) !! length l = Some x.
Proof. rewrite lookup_app_r, Nat.sub_diag; [done|lia]. Qed.

Ltac unfold_monad :=
  cbv [mbind M_bind mret M_ret _set_action_start ActionHandle_init add_callback
       update_handle _add_action_handle handle_id get modify raise lift emit
       log send fmap option_fmap option_map].

Ltac run_handles :=
  repeat (progress
            (cbn [handles set_handles set_is_action_active set_action_handles
                  _action_handles trace set_trace id callbacks timeout event_
                  timer_started app];
             rewrite ?alter_last, ?lookup_last)).

Lemma say_run (u : N) (said : str) (cb : option nat) (w : World) :
  say u said cb w
  = match activity_cmd (say_fragment u said) with
    | Ok cmd => (Returned (length (handles w)),
                 set_trace (trace w ++ [Sent cmd]) (dispatched u cb w))
    | Raise e => (Raised e, dispatched u cb w)
    end.
Proof.
  unfold say, say_fragment, dispatched, new_handle. unfold_monad.
  generalize (generate_id u). intros gid.
  generalize activity_cmd. intros act.
  destruct cb as [n|].
  - run_handles.
    change (Builders.build (Functional.say said)) with said.
    change (Builders.build (Functional.callback_end gid))
      with (text "<TE=" ++ gid ++ text ">").
    destruct (act (said ++ text "<TE=" ++ gid ++ text ">")); reflexivity.
  - run_handles.
    change (Builders.build (Functional.say said)) with said.
    change (Builders.build (Functional.callback_end gid))
      with (text "<TE=" ++ gid ++ text ">").
    destruct (act (said ++ text "<TE=" ++ gid ++ text ">")); reflexivity.
Qed.




(** ** What the dispatch methods append *)

Section DispatchFacts.
Variable format_float : float -> str.
Context {B : Type} `{Builders.CommandBuilder B}.
Variable __animation_map : Animation -> B.

(** What [Robot.animate] and [Robot.do] hand to [activity_cmd] for the text
    [built] of their builder. *)
Definition padded_fragment (u : N) (built : str) : str :=
  built ++ text " " ++ text "<PA>" ++ text "<TE=" ++ generate_id u ++ text ">".

Lemma animate_run (u : N) (animation : Animation) (cb : option nat) (w : World) :
  animate format_float __animation_map u animation cb w
  = match activity_cmd
            (padded_fragment u (Builders.build (__animation_map animation))) with
    | Ok cmd => (Returned (length (handles w)),
                 set_trace (trace w ++ [Sent cmd]) (dispatched u cb w))
    | Raise e => (Raised e, dispatched u cb w)
    end.
Proof.
  unfold animate, padded_fragment, dispatched, new_handle. unfold_monad.
  generalize (generate_id u). intros gid.
  generalize activity_cmd. intros act.
  destruct cb as [n|].
  - run_handles.
    change (Builders.WaitCommandBuilder_build format_float
              Functional.wait_for_motors_and_speaking) with (text "<PA>").
    change (Builders.build (Functional.callback_end gid))
      with (text "<TE=" ++ gid ++ text ">").
    destruct (act _); reflexivity.
  - run_handles.
    change (Builders.WaitCommandBuilder_build format_float
              Functional.wait_for_motors_and_speaking) with (text "<PA>").
    change (Builders.build (Functional.callback_end gid))
      with (text "<TE=" ++ gid ++ text ">").
    destruct (act _); reflexivity.
Qed.

Lemma do_run (u : N) (commands : list B) (cb : option nat) (w : World) :
  do format_float u commands cb w
  = match activity_cmd
            (padded_fragment u (concat (map Builders.build commands))) with
    | Ok cmd => (Returned (length (handles w)),
                 set_trace (trace w ++ [Sent cmd]) (dispatched u cb w))
    | Raise e => (Raised e, dispatched u cb w)
    end.
Proof.
  unfold do, padded_fragment, dispatched, new_handle. unfold_monad.
  generalize (generate_id u). intros gid.
  generalize activity_cmd. intros act.
  destruct cb as [n|].
  - run_handles.
    change (Builders.WaitCommandBuilder_build format_float
              Functional.wait_for_motors_and_speaking) with (text "<PA>").
    change (Builders.build (Functional.callback_end gid))
      with (text "<TE=" ++ gid ++ text ">").
    destruct (act _); reflexivity.
  - run_handles.
    change (Builders.WaitCommandBuilder_build format_float
              Functional.wait_for_motors_and_speaking) with (text "<PA>").
    change (Builders.build (Functional.callback_end gid))
      with (text "<TE=" ++ gid ++ text ">").
    destruct (act _); reflexivity.
Qed.

(** C4, amended. [Robot.animate] and [Robot.do] append to the text of their
    builder a space, the directive [<PA>] and the directive [<TE=id>] with
    the identifier of the handle, in this order; [Robot.say] appends the
    directive [<TE=id>] alone to the text to speak. Each of them has then
    marked an action active and registered the new handle, which [id]
    identifies, with the count 0. *)
Theorem dispatch_appends_directives (u : N) (cb : option nat) (w : World) :
  let h := length (handles w) in
  let sent fragment :=
    match activity_cmd fragment with
    | Ok cmd => (Returned h, set_trace (trace w ++ [Sent cmd]) (dispatched u cb w))
    | Raise e => (Raised e, dispatched u cb w)
    end in
  let id := generate_id u in
  (forall animation,
     animate format_float __animation_map u animation cb w
     = sent (Builders.build (__animation_map animation)
             ++ text " " ++ text "<PA>" ++ text "<TE=" ++ id ++ text ">"))
  /\ (forall commands : list B,
        do format_float u commands cb w
        = sent (concat (map Builders.build commands)
                ++ text " " ++ text "<PA>" ++ text "<TE=" ++ id ++ text ">"))
  /\ (forall said,
        say u said cb w = sent (said ++ text "<TE=" ++ id ++ text ">"))
  /\ handles (dispatched u cb w) !! h = Some (new_handle u cb)
  /\ Robot.id (new_handle u cb) = id
  /\ _action_handles (dispatched u cb w) !! id = Some (0, h)
  /\ _is_action_active (dispatched u cb w) = true.
Proof.
  intros h sent id.
  split; [intros; apply animate_run|].
  split; [intros; apply do_run|].
  split; [intros; apply say_run|].
  split; [apply lookup_last|].
  split; [reflexivity|].
  split; [apply lookup_insert_eq | reflexivity].
Qed.

End DispatchFacts.

(** What is sent for a fragment. *)
Definition sent_for (fragment : str) : list Event :=
  match activity_cmd fragment with
  | Ok cmd => [Sent cmd]
  | Raise _ => []
  end.

(** C4, as stated, fails for [Robot.say]: after the text it sends the
    directive [<TE=id>] alone, with neither the space nor [<PA>]. *)
Lemma say_appends_no_padding :
  let id := generate_id 7 in
  let w := (say 7 (text "hi") None Robot_init).2 in
  trace w = sent_for (text "hi" ++ text "<TE=" ++ id ++ text ">")
  /\ trace w
     <> sent_for (text "hi" ++ text " " ++ text "<PA>" ++ text "<TE=" ++ id ++ text ">").
Proof. vm_compute. split; [reflexivity | discriminate]. Qed.

(** ** Correlation identifiers *)

Lemma length_hex_digits (width : nat) (n : N) (acc : str) :
  length (hex_digits width n acc) = (width + length acc)%nat.
Proof.
  revert n acc. induction width as [|width IH]; intros n acc; [done|].
  cbn [hex_digits]. rewrite IH. cbn. lia.
Qed.

Definition not_hyphen (c : ascii) : bool := negb (Ascii.eqb "-"%char c).

Lemma hex_digit_not_hyphen (d : N) : (d < 16)%N -> not_hyphen (hex_digit d) = true.
Proof.
  intros Hd.
  assert (Hall : forallb (fun k => not_hyphen (hex_digit (N.of_nat k))) (seq 0 16) = true)
    by (vm_compute; reflexivity).
  rewrite forallb_forall in Hall.
  rewrite <- (N2Nat.id d). apply Hall. apply in_seq. lia.
Qed.

Lemma hex_digits_not_hyphen (width : nat) (n : N) (acc : str) :
  forallb not_hyphen acc = true ->
  forallb not_hyphen (hex_digits width n acc) = true.
Proof.
  revert n acc. induction width as [|width IH]; intros n acc Hacc; [done|].
  cbn [hex_digits]. apply IH. cbn [forallb]. rewrite Hacc, andb_true_r.
  apply hex_digit_not_hyphen. apply N.mod_lt. done.
Qed.

Lemma startswith_nil (s : str) : startswith s [] = true.
Proof. by destruct s. Qed.

(** Replacing a character by nothing removes it. *)
Lemma replace_char_by_nothing (c : ascii) (s : str) :
  replace s [c] [] = List.filter (fun x => negb (Ascii.eqb c x)) s.
Proof.
  unfold replace. induction s as [|x s IH]; [done|].
  cbn [replace_from startswith length List.filter Nat.sub app].
  rewrite startswith_nil, andb_true_r.
  destruct (Ascii.eqb c x); cbn [negb]; by rewrite IH.
Qed.

Lemma filter_all {A} (f : A -> bool) (l : list A) :
  forallb f l = true -> List.filter f l = l.
Proof.
  induction l as [|x l IH]; [done|]. cbn. intros [Hx Hl]%andb_prop.
  rewrite Hx, IH; done.
Qed.

Lemma forallb_take {A} (f : A -> bool) (n : nat) (l : list A) :
  forallb f l = true -> forallb f (take n l) = true.
Proof.
  revert n. induction l as [|x l IH]; intros [|n]; cbn; try done.
  intros [Hx Hl]%andb_prop. rewrite Hx, IH; done.
Qed.

Lemma forallb_drop {A} (f : A -> bool) (n : nat) (l : list A) :
  forallb f l = true -> forallb f (drop n l) = true.
Proof.
  revert n. induction l as [|x l IH]; intros [|n]; cbn; try done.
  intros [Hx Hl]%andb_prop. by apply IH.
Qed.

Lemma length_uuid_digits (u : N) :
  length (replace (str_of_uuid u) (text "-") []) = 32%nat.
Proof.
  change (text "-") with ["-"%char]. rewrite replace_char_by_nothing.
  unfold str_of_uuid. cbv zeta.
  pose proof (length_hex_digits 32 u []) as Hl.
  pose proof (hex_digits_not_hyphen 32 u [] eq_refl) as Hh.
  change (32 + length (@nil ascii))%nat with 32%nat in Hl.
  revert Hl Hh. generalize (hex_digits 32 u []). intros hex Hl Hh.
  assert (Hs : forall a b : Z,
             0 <= a <= b /\ b <= 32 ->
             slice hex (Some a) (Some b)
             = take (Z.to_nat (b - a)) (drop (Z.to_nat a) hex)).
  { intros a b Hab. unfold slice, adjust_index, len. rewrite Hl.
    destruct (a <? 0) eqn:Ea; [lia|].
    destruct (b <? 0) eqn:Eb; [lia|].
    rewrite !Z.min_l by lia. reflexivity. }
  assert (Hs0 : slice hex None (Some 8) = take 8 hex).
  { unfold slice, adjust_index, len. rewrite Hl. reflexivity. }
  assert (Hs4 : slice hex (Some 20) None = drop 20 hex).
  { unfold slice, adjust_index, len. rewrite Hl. cbn -[take drop].
    apply firstn_all2. rewrite length_drop. lia. }
  rewrite Hs0, Hs4.
  rewrite (Hs 8 12), (Hs 12 16), (Hs 16 20) by lia.
  repeat rewrite List.filter_app.
  change (List.filter (fun x => negb (Ascii.eqb "-"%char x)) (text "-"))
    with (@nil ascii).
  fold not_hyphen.
  rewrite !filter_all
    by (repeat first [apply forallb_take | apply forallb_drop]; exact Hh).
  rewrite !length_app, !length_take, !length_drop, Hl. cbn. lia.
Qed.

Lemma length_generate_id (u : N) : length (generate_id u) = 25%nat.
Proof.
  unfold generate_id. rewrite length_app.
  pose proof (length_uuid_digits u) as Hl.
  revert Hl. generalize (replace (str_of_uuid u) (text "-") []).
  intros digits Hl. unfold slice, adjust_index, len. rewrite Hl.
  cbn -[take drop]. rewrite length_take, length_drop, Hl. cbn. lia.
Qed.

(** ** The state updater *)

Ltac unfold_updater :=
  cbv [mbind M_bind mret M_ret get modify raise lift or_raise emit log
       Json.contains Json.getitem].

(** A trigger that starts with [cb.] and not with [voltage.], in a message
    without the key [device], goes to the registry. *)
Lemma update_state_completion (data : list (str * Json.value)) (trigger : str)
    (w : World) :
  Json.dict_get (text "device") data = None ->
  Json.dict_get (text "trigger") data = Some (Json.Str trigger) ->
  startswith trigger (text "voltage.") = false ->
  startswith trigger (text "cb.") = true ->
  _update_state (Json.Dict data) w
  = (emit (Updated (Json.Dict data));;
     log debug (trigger_received trigger);;
     _set_action_handle_done trigger) w.
Proof.
  intros Hd Ht Hv Hc. unfold _update_state. unfold_updater.
  rewrite Hd, Ht. cbv beta iota. rewrite Hv, Hc. reflexivity.
Qed.


Lemma startswith_app (p s : str) : startswith (p ++ s) p = true.
Proof.
  induction p as [|a p IH]; [apply startswith_nil|].
  cbn. by rewrite Ascii.eqb_refl, IH.
Qed.

(** C10. An identifier that [generate_id] makes has 25 characters, starts
    with [cb.] and does not start with [voltage.]; so the state updater
    hands a trigger that carries it to the registry of action handles. *)
Theorem generated_id_reaches_registry (u : N) :
  length (generate_id u) = 25%nat
  /\ startswith (generate_id u) (text "cb.") = true
  /\ startswith (generate_id u) (text "voltage.") = false
  /\ forall (data : list (str * Json.value)) (w : World),
       Json.dict_get (text "device") data = None ->
       Json.dict_get (text "trigger") data = Some (Json.Str (generate_id u)) ->
       _update_state (Json.Dict data) w
       = (emit (Updated (Json.Dict data));;
          log debug (trigger_received (generate_id u));;
          _set_action_handle_done (generate_id u)) w.
Proof.
  split; [apply length_generate_id|].
  split; [apply startswith_app|]. split; [reflexivity|].
  intros data w Hd Ht. apply update_state_completion; try done.
  apply startswith_app.
Qed.

Lemma generated_id_reaches_registry_witness :
  let data := [(text "trigger", Json.Str (generate_id 7))] in
  Json.dict_get (text "device") data = None
  /\ Json.dict_get (text "trigger") data = Some (Json.Str (generate_id 7))
  /\ _update_state (Json.Dict data) Robot_init
     = (Returned tt,
        set_trace [Updated (Json.Dict data);
                   Logged debug (trigger_received (generate_id 7));
                   Logged warn (handle_not_found (generate_id 7))] Robot_init).
Proof.
  intros data. split; [reflexivity|]. split; [reflexivity|].
  destruct (generated_id_reaches_registry 7) as (_ & _ & _ & H).
  rewrite (H data Robot_init eq_refl eq_refl). reflexivity.
Defined.


(** ** Telemetry *)

Ltac unfold_bind :=
  cbv [mbind M_bind mret M_ret get modify raise lift or_raise emit log].

Lemma done_version (h : nat) (w : World) :
  version (done h w).2 = version w /\ voltage (done h w).2 = voltage w.
Proof.
  destruct (handles w !! h) as [self|] eqn:Hh.
  - destruct (done_run h self w Hh) as (w' & -> & _ & _ & _ & Hv & Hvo). done.
  - unfold done, update_handle. unfold_bind. cbn [handles set_handles].
    rewrite list_lookup_alter_eq, Hh. done.
Qed.

Lemma set_action_handle_done_version (action_id : str) (w : World) :
  version (_set_action_handle_done action_id w).2 = version w
  /\ voltage (_set_action_handle_done action_id w).2 = voltage w.
Proof.
  unfold _set_action_handle_done. rewrite bind_run. cbn [get].
  destruct (_action_handles w !! action_id) as [[count ah]|]; [|done].
  cbv zeta. destruct (count + 1 >? 1); [|done].
  rewrite bind_run. cbn [modify].
  apply (done_version ah (set_action_handles (delete action_id (_action_handles w)) w)).
Qed.

Definition is_empty_str (v : Json.value) : bool :=
  match v with Json.Str [] => true | _ => false end.

(** What the second statement of [_update_state], which reads the trigger,
    does. *)
Definition trigger_part (data : Json.value) : M unit :=
  has_trigger ← lift (Json.contains (text "trigger") data);
  if has_trigger : bool then
    trigger ← lift (Json.getitem data (text "trigger"));
    match trigger with
    | Json.Str trigger =>
        if startswith trigger (text "voltage.") then
          x ← or_raise ValueError
                (float_of_str (replace trigger (text "voltage.") []));
          modify (set_voltage (div10 x))
        else if startswith trigger (text "cb.") then
          log debug (trigger_received trigger);;
          _set_action_handle_done trigger
        else log debug (unknown_trigger trigger)
    | _ => raise AttributeError
    end
  else mret tt.

Lemma trigger_part_version (data : Json.value) (w : World) :
  version (trigger_part data w).2 = version w.
Proof.
  unfold trigger_part. unfold_bind.
  destruct (Json.contains (text "trigger") data) as [[]|]; [|reflexivity|reflexivity].
  destruct (Json.getitem data (text "trigger")) as [[]|]; try reflexivity.
  destruct (startswith s (text "voltage.")).
  - destruct (float_of_str _); reflexivity.
  - destruct (startswith s (text "cb.")); [|reflexivity].
    apply (proj1 (set_action_handle_done_version s
                    (set_trace (trace w ++ [Logged debug (trigger_received s)]) w))).
Qed.

(** The version that [_update_state] leaves: only the first of its two
    statements writes it. *)
Lemma update_state_version (data : Json.value) (w : World) :
  version (_update_state data w).2
  = match Json.contains (text "device") data with
    | Ok true =>
        if is_empty_str (version w) then
          match Json.getitem data (text "device") with
          | Ok device =>
              match Json.getitem device (text "version") with
              | Ok v => v
              | Raise _ => version w
              end
          | Raise _ => version w
          end
        else version w
    | _ => version w
    end.
Proof.
  unfold _update_state. fold (trigger_part data). unfold_bind.
  destruct (Json.contains (text "device") data) as [[]|]; cbv beta iota;
    [| |reflexivity].
  - change (version (set_trace (trace w ++ [Updated data]) w)) with (version w).
    fold (is_empty_str (version w)). cbn [andb].
    destruct (is_empty_str (version w)).
    + destruct (Json.getitem data (text "device")) as [device|]; [|reflexivity].
      destruct (Json.getitem device (text "version")) as [v|]; [|reflexivity].
      cbv beta iota. rewrite trigger_part_version; reflexivity.
    + rewrite trigger_part_version; reflexivity.
  - cbn [andb]. rewrite trigger_part_version; reflexivity.
Qed.
(** *** Texts of decimal digits *)

Lemma digit_facts (c : ascii) :
  is_digit c = true ->
  is_space c = false
  /\ Ascii.eqb c "-"%char = false /\ Ascii.eqb c "+"%char = false
  /\ Ascii.eqb c "{"%char = false /\ Ascii.eqb "{"%char c = false
  /\ Ascii.eqb "v"%char c = false
  /\ lower c = c
  /\ Ascii.eqb c "i"%char = false /\ Ascii.eqb c "n"%char = false.
Proof.
  destruct c as [[] [] [] [] [] [] [] []]; intros Hd;
    try discriminate Hd; vm_compute; done.
Qed.

Lemma forallb_rev {A} (f : A -> bool) (l : list A) :
  forallb f l = true -> forallb f (rev l) = true.
Proof.
  intros Hl. apply forallb_forall. intros x Hx. apply in_rev in Hx.
  rewrite forallb_forall in Hl. by apply Hl.
Qed.

Lemma lstrip_digits (s : str) : forallb is_digit s = true -> lstrip s = s.
Proof.
  destruct s as [|c s]; [done|]. cbn. intros [Hc _]%andb_prop.
  by rewrite (proj1 (digit_facts c Hc)).
Qed.

Lemma strip_digits (s : str) : forallb is_digit s = true -> strip s = s.
Proof.
  intros Hs. unfold strip. rewrite (lstrip_digits s Hs).
  rewrite lstrip_digits by by apply forallb_rev. apply rev_involutive.
Qed.

Lemma split_sign_digits (s : str) :
  forallb is_digit s = true -> split_sign s = (false, s).
Proof.
  destruct s as [|c s]; [done|]. cbn. intros [Hc _]%andb_prop.
  destruct (digit_facts c Hc) as (_ & -> & -> & _). done.
Qed.

Lemma scan_digits_all (s : str) :
  forallb is_digit s = true -> scan_digits s = (s, []).
Proof.
  induction s as [|c s IH]; [done|]. intros [Hc Hs]%andb_prop.
  cbn [scan_digits]. rewrite Hc. destruct s as [|u s']; [done|].
  assert (Hu : Ascii.eqb u "_"%char = false).
  { cbn in Hs. apply andb_prop in Hs as [Hu _].
    destruct u as [[] [] [] [] [] [] [] []]; try discriminate Hu; done. }
  rewrite Hu. cbn [andb]. rewrite (IH Hs). done.
Qed.

Lemma map_lower_digits (s : str) : forallb is_digit s = true -> map lower s = s.
Proof.
  induction s as [|c s IH]; [done|]. intros [Hc Hs]%andb_prop. cbn.
  rewrite IH by done. destruct (digit_facts c Hc) as (_&_&_&_&_&_& -> & _). done.
Qed.

Lemma replace_voltage_digits (s : str) :
  forallb is_digit s = true -> replace_from 0 s (text "voltage.") [] = s.
Proof.
  induction s as [|c s IH]; [done|]. intros [Hc Hs]%andb_prop.
  cbn [replace_from]. change (text "voltage.") with ("v"%char :: text "oltage.").
  cbn [startswith]. destruct (digit_facts c Hc) as (_&_&_&_&_& -> &_).
  cbn [andb]. change ("v"%char :: text "oltage.") with (text "voltage.").
  by rewrite IH.
Qed.

Lemma replace_from_skip (p s old new : str) :
  replace_from (length p) (p ++ s) old new = replace_from 0 s old new.
Proof. induction p as [|c p IH]; [done|]. cbn. exact IH. Qed.

(** The first occurrence, at the start of the text. *)
Lemma replace_at_start (old s new : str) :
  old <> [] ->
  replace (old ++ s) old new = new ++ replace_from 0 s old new.
Proof.
  destruct old as [|a old']; [done|]. intros _. unfold replace.
  change ((a :: old') ++ s) with (a :: (old' ++ s)).
  cbn [replace_from].
  change (a :: old' ++ s) with ((a :: old') ++ s).
  rewrite startswith_app. cbn [length Nat.sub]. rewrite Nat.sub_0_r.
  by rewrite replace_from_skip.
Qed.

(** [float] of a text of digits is the number they write. *)
Lemma float_of_digits (s : str) :
  s <> [] -> forallb is_digit s = true ->
  float_of_str s = Some (Fin (Qred (Z.of_N (digits_value s) # 1))).
Proof.
  intros Hne Hs. unfold float_of_str.
  rewrite strip_digits, split_sign_digits, map_lower_digits by done.
  destruct s as [|c s]; [done|].
  assert (Hc : is_digit c = true) by (cbn in Hs; by apply andb_prop in Hs as [? _]).
  destruct (digit_facts c Hc) as (_&_&_&_&_&_&_& Hi & Hn).
  change (text "inf") with ("i"%char :: text "nf").
  change (text "infinity") with ("i"%char :: text "nfinity").
  change (text "nan") with ("n"%char :: text "an").
  cbn [str_eqb]. rewrite Hi, Hn. cbn [andb orb].
  rewrite scan_digits_all by done. rewrite app_nil_r.
  cbn [scan_exponent len length Z.of_nat Z.sub Z.opp Z.add].
  unfold scale10. cbn [Z.leb Z.compare Z.pow Z.pow_pos]. rewrite Z.mul_1_r. done.
Qed.

Lemma div10_digits (n : N) :
  div10 (Fin (Qred (Z.of_N n # 1))) = Fin (Qred (Z.of_N n # 10)).
Proof.
  unfold div10. f_equal. apply Qred_complete.
  rewrite Qred_correct. unfold Qeq, Qdiv, Qmult, Qinv. cbn. lia.
Qed.

(** The message [{"trigger": "voltage.<digits>"}] sets the voltage to the
    number the digits write, divided by 10. *)
Lemma update_state_voltage (digits : str) (w : World) :
  digits <> [] -> forallb is_digit digits = true ->
  let data := Json.Dict [(text "trigger", Json.Str (text "voltage." ++ digits))] in
  _update_state data w
  = (Returned tt,
     set_voltage (Fin (Qred (Z.of_N (digits_value digits) # 10)))
       (set_trace (trace w ++ [Updated data]) w)).
Proof.
  intros Hne Hd data. unfold _update_state, data. unfold_updater.
  cbn [Json.dict_get].
  change (str_eqb (text "device") (text "trigger")) with false.
  change (str_eqb (text "trigger") (text "trigger")) with true.
  cbv beta iota. cbn [andb].
  change (startswith (text "voltage." ++ digits) (text "voltage."))
    with (startswith digits []).
  rewrite startswith_nil.
  assert (Hr : replace (text "voltage." ++ digits) (text "voltage.") [] = digits).
  { rewrite replace_at_start by discriminate.
    by apply replace_voltage_digits. }
  rewrite Hr, float_of_digits by done. cbv beta iota.
  rewrite div10_digits. reflexivity.
Qed.
(** *** The version of the firmware *)

(** The notification [{"device": {"version": v}}]. *)
Definition device_notification (v : Json.value) : Json.value :=
  Json.Dict [(text "device", Json.Dict [(text "version", v)])].

Lemma update_state_device (v : Json.value) (w : World) :
  _update_state (device_notification v) w
  = (Returned tt,
     let w' := set_trace (trace w ++ [Updated (device_notification v)]) w in
     if is_empty_str (version w) then set_version v w' else w').
Proof.
  unfold _update_state, device_notification. unfold_updater.
  cbn [Json.dict_get].
  change (str_eqb (text "device") (text "device")) with true.
  change (str_eqb (text "trigger") (text "device")) with false.
  change (str_eqb (text "version") (text "version")) with true.
  cbv beta iota zeta. cbn [andb version set_trace].
  fold (is_empty_str (version w)).
  destruct (is_empty_str (version w)); reflexivity.
Qed.

(** The first value that is not the empty text, the empty text when there
    is none. *)
Fixpoint first_non_empty (vs : list Json.value) : Json.value :=
  match vs with
  | [] => Json.Str []
  | v :: vs' => if is_empty_str v then first_non_empty vs' else v
  end.

Lemma is_empty_str_eq (v : Json.value) : is_empty_str v = true -> v = Json.Str [].
Proof. destruct v as [| | | |[|]| |]; done. Qed.

Lemma device_notifications (vs : list Json.value) (w : World) :
  exists w',
    for_each (map device_notification vs) _update_state w = (Returned tt, w')
    /\ version w' = if is_empty_str (version w) then first_non_empty vs
                    else version w.
Proof.
  revert w. induction vs as [|v vs IH]; intros w.
  - exists w. split; [done|]. cbn.
    destruct (is_empty_str (version w)) eqn:E; [|done]. by apply is_empty_str_eq.
  - cbn [map for_each]. rewrite bind_run, update_state_device. cbv zeta.
    destruct (is_empty_str (version w)) eqn:E.
    + destruct (IH (set_version v
                      (set_trace (trace w ++ [Updated (device_notification v)]) w)))
        as (w' & Ew & Hv).
      exists w'. split; [exact Ew|]. rewrite Hv. cbn. done.
    + destruct (IH (set_trace (trace w ++ [Updated (device_notification v)]) w))
        as (w' & Ew & Hv).
      exists w'. split; [exact Ew|]. rewrite Hv. cbn. by rewrite E.
Qed.

(** C8. The version is written at most once: a notification with
    [device.version] writes it while it is the empty text, and once it is
    not, no message changes it; so of the values notified in a row the first
    that is not empty stays. A trigger [voltage.<n>] overwrites the voltage
    with [n / 10], whatever it was. *)
Theorem version_once_voltage_latest :
  (forall (data : Json.value) (w : World),
     is_empty_str (version w) = false ->
     version (_update_state data w).2 = version w)
  /\ (forall (v : Json.value) (w : World),
        is_empty_str (version w) = true ->
        version (_update_state (device_notification v) w).2 = v)
  /\ (forall (vs : list Json.value) (w : World),
        is_empty_str (version w) = true ->
        let r := for_each (map device_notification vs) _update_state w in
        r.1 = Returned tt /\ version r.2 = first_non_empty vs)
  /\ (forall (digits : str) (w : World),
        digits <> [] -> forallb is_digit digits = true ->
        let data := Json.Dict [(text "trigger", Json.Str (text "voltage." ++ digits))] in
        let r := _update_state data w in
        r.1 = Returned tt
        /\ voltage r.2 = Fin (Qred (Z.of_N (digits_value digits) # 10))
        /\ version r.2 = version w)
  /\ voltage (_update_state
                (Json.Dict [(text "trigger", Json.Str (text "voltage.47"))])
                Robot_init).2
     = Fin (47 # 10).
Proof.
  split.
  { intros data w He. rewrite update_state_version, He.
    by destruct (Json.contains _ _) as [[]|]. }
  split.
  { intros v w He. rewrite update_state_device. cbv zeta. by rewrite He. }
  split.
  { intros vs w He r. destruct (device_notifications vs w) as (w' & Ew & Hv).
    unfold r. rewrite Ew. by rewrite He in Hv. }
  split; [|vm_compute; reflexivity].
  intros digits w Hne Hd data r. unfold r, data.
  rewrite update_state_voltage by done. done.
Qed.

Lemma version_once_voltage_latest_witness :
  let vs := [Json.Str []; Json.Str (text "1.2"); Json.Str (text "1.3")] in
  is_empty_str (version Robot_init) = true
  /\ version (for_each (map device_notification vs) _update_state Robot_init).2
     = Json.Str (text "1.2")
  /\ voltage (_update_state
                (Json.Dict [(text "trigger", Json.Str (text "voltage." ++ text "100"))])
                (set_voltage (Fin (47 # 10)) Robot_init)).2
     = Fin (10 # 1).
Proof.
  intros vs. split; [reflexivity|].
  destruct version_once_voltage_latest as (_ & _ & Hs & Hv & _).
  split.
  - destruct (Hs vs Robot_init eq_refl) as [_ H]. exact H.
  - assert (Hne : text "100" <> []) by discriminate.
    destruct (Hv (text "100") (set_voltage (Fin (47 # 10)) Robot_init) Hne eq_refl)
      as (_ & H & _).
    exact H.
Defined.

(** ** The frame decoder *)

(** *** Slices of a concatenation *)

Lemma adjust_index_within (n i : Z) : 0 <= i <= n -> adjust_index n i = i.
Proof.
  intros Hi. unfold adjust_index. destruct (Z.ltb_spec i 0); lia.
Qed.

Lemma slice_suffix (x y : str) : slice (x ++ y) (Some (len x)) None = y.
Proof.
  unfold slice. rewrite adjust_index_within
    by (rewrite len_app; unfold len; lia).
  rewrite len_app. unfold len. rewrite Nat2Z.id, drop_app_length.
  apply firstn_all2. lia.
Qed.

Lemma slice_middle (x y z : str) :
  slice (x ++ y ++ z) (Some (len x)) (Some (len x + len y)) = y.
Proof.
  unfold slice. rewrite !adjust_index_within
    by (rewrite !len_app; unfold len; lia).
  unfold len. rewrite Nat2Z.id, drop_app_length.
  replace (Z.to_nat (Z.of_nat (length x) + Z.of_nat (length y) - Z.of_nat (length x)))
    with (length y) by lia.
  apply take_app_length.
Qed.

(** The first brace of digits followed by a brace. *)
Lemma find_brace_after_digits (p b : str) (i : Z) :
  forallb is_digit p = true ->
  find_from i (p ++ "{"%char :: b) (text "{") = i + len p.
Proof.
  revert i. induction p as [|c p IH]; intros i Hp.
  - cbn [app find_from]. change (text "{") with ["{"%char].
    cbn [startswith]. rewrite startswith_nil. cbn [Ascii.eqb Bool.eqb andb].
    unfold len. cbn [length Z.of_nat]. lia.
  - cbn in Hp. apply andb_prop in Hp as [Hc Hp].
    cbn [app find_from]. change (text "{") with ["{"%char]. cbn [startswith].
    destruct (digit_facts c Hc) as (_&_&_&_& -> &_). cbn [andb].
    change ["{"%char] with (text "{"). rewrite IH by done.
    unfold len. cbn [length]. lia.
Qed.

(** *** Envelopes *)

(** A well-formed envelope: a prefix of six decimal digits that reads as
    the length of the body, and a body that starts with a brace and is the
    JSON text of [data]. *)
Definition well_formed (frame : str * str * Json.value) : Prop :=
  let '(prefix, body, data) := frame in
  length prefix = 6%nat
  /\ forallb is_digit prefix = true
  /\ int prefix = Some (len body)
  /\ head body = Some "{"%char
  /\ Json.loads body = Some data.

Definition wire (frames : list (str * str * Json.value)) : str :=
  concat (map (fun '(prefix, body, _) => prefix ++ body) frames).

Definition objects (frames : list (str * str * Json.value)) : list Json.value :=
  map snd frames.

(** A turn of the loop at the start of a well-formed envelope hands its
    object to the state updater and moves to the end of the envelope. *)
Lemma data_received_turn (fuel : nat) (before after prefix body : str)
    (data : Json.value) (w : World) :
  well_formed (prefix, body, data) ->
  _data_received_loop (S fuel) (before ++ prefix ++ body ++ after)
    (len (before ++ prefix ++ body ++ after)) (len before) w
  = (_update_state data
     ≫= fun _ =>
          _data_received_loop fuel (before ++ prefix ++ body ++ after)
            (len (before ++ prefix ++ body ++ after))
            (len (before ++ prefix ++ body))) w.
Proof.
  intros (Hlen & Hdig & Hint & Hhead & Hload).
  set (msg := before ++ prefix ++ body ++ after).
  destruct body as [|c body']; [discriminate|]. injection Hhead as ->.
  assert (Hlt : (len before <? len msg) = true).
  { apply Z.ltb_lt. unfold msg. rewrite !len_app. unfold len. lia. }
  assert (H1 : slice msg (Some (len before)) None
               = prefix ++ ("{"%char :: body') ++ after)
    by apply slice_suffix.
  assert (H2 : slice msg (Some (len before)) (Some (len before + len prefix))
               = prefix)
    by apply slice_middle.
  assert (H3 : slice msg (Some (len before + len prefix))
                 (Some (len before + len prefix + len ("{"%char :: body')))
               = "{"%char :: body').
  { unfold msg. rewrite (app_assoc before prefix), <- len_app.
    apply slice_middle. }
  assert (Hf : find (prefix ++ ("{"%char :: body') ++ after) (text "{")
               = len prefix).
  { unfold find. change (("{"%char :: body') ++ after)
      with ("{"%char :: (body' ++ after)).
    rewrite find_brace_after_digits by done. lia. }
  assert (He : len (before ++ prefix ++ "{"%char :: body')
               = len before + len prefix + len ("{"%char :: body'))
    by (rewrite !len_app; lia).
  rewrite He. clearbody msg.
  cbn [_data_received_loop]. rewrite Hlt, H1, Hf, H2, Hint.
  unfold_bind. rewrite H3, Hload. reflexivity.
Qed.

Lemma data_received_frames (frames : list (str * str * Json.value))
    (fuel : nat) (before : str) (w : World) :
  Forall well_formed frames ->
  (length frames < fuel)%nat ->
  let msg := before ++ wire frames in
  _data_received_loop fuel msg (len msg) (len before) w
  = for_each (objects frames) _update_state w.
Proof.
  revert fuel before w.
  induction frames as [|[[prefix body] data] frames IH];
    intros fuel before w Hwf Hfuel msg.
  - destruct fuel as [|fuel]; [lia|]. cbn [_data_received_loop].
    unfold msg, wire. cbn. rewrite app_nil_r, Z.ltb_irrefl. done.
  - destruct fuel as [|fuel]; [cbn in Hfuel; lia|].
    apply Forall_cons in Hwf as [Hwf1 Hwf].
    assert (Emsg : msg = before ++ prefix ++ body ++ wire frames).
    { unfold msg, wire. cbn. by rewrite <- app_assoc. }
    rewrite Emsg.
    rewrite (data_received_turn fuel before (wire frames) prefix body data w Hwf1).
    cbn [objects map snd for_each]. rewrite !bind_run.
    destruct (_update_state data w) as [[[]| |] w1]; try done.
    replace (before ++ prefix ++ body ++ wire frames)
      with ((before ++ prefix ++ body) ++ wire frames)
      by (by rewrite <- !app_assoc).
    apply IH; [done | cbn in Hfuel; lia].
Qed.

Lemma length_wire (frames : list (str * str * Json.value)) :
  Forall well_formed frames -> (length frames <= length (wire frames))%nat.
Proof.
  induction 1 as [|[[prefix body] data] frames (Hl & _) _ IH]; [done|].
  unfold wire in *. cbn. rewrite !length_app. lia.
Qed.

(** The decoder on a concatenation of well-formed envelopes runs the state
    updater on their objects, in order. *)
Lemma data_received_cb_frames (frames : list (str * str * Json.value))
    (w : World) :
  Forall well_formed frames ->
  _data_received_cb (wire frames) w
  = (log debug (data_received (wire frames));;
     try_except_ValueError
       (for_each (objects frames) _update_state)
       (log error (error_decoding (wire frames)))) w.
Proof.
  intros Hwf. unfold _data_received_cb, try_except_ValueError.
  unfold log at 1 3. unfold_bind. cbv zeta.
  pose proof (length_wire frames Hwf) as Hl.
  pose proof (data_received_frames frames (S (length (wire frames))) []
                (set_trace (trace w ++ [Logged debug (data_received (wire frames))]) w)
                Hwf ltac:(lia)) as H.
  cbv zeta in H. cbn [app] in H. change (len []) with 0 in H.
  rewrite H. reflexivity.
Qed.

(** *** What the decoder hands to the state updater *)

(** The objects that the state updater was called with, in order. *)
Fixpoint updates (tr : list Event) : list Json.value :=
  match tr with
  | [] => []
  | Updated data :: tr' => data :: updates tr'
  | _ :: tr' => updates tr'
  end.








(** *** Concatenated envelopes *)




(** *** Reads that are not envelopes *)

(** C5, where the code fails. A read that holds the prefix of an envelope
    and nothing else, here of a body of 94 characters, has no brace: [find]
    returns -1, the slices wrap around the end of the read, [int] reads
    ["00009"], [json.loads] reads ["4"], and the state updater raises
    [TypeError] on the number. The [except ValueError] of the decoder does
    not catch it: the exception leaves the callback, and no error is
    logged. The same happens on the read ["93"]. *)
Theorem decoder_raises_type_error (w : World) :
  _data_received_cb (text "000094") w
  = (Raised TypeError,
     set_trace (trace w ++ [Logged debug (data_received (text "000094"));
                            Updated (Json.Int 4)]) w)
  /\ (_data_received_cb (text "93") w).1 = Raised TypeError.
Proof.
  split.
  - replace (trace w ++ [Logged debug (data_received (text "000094"));
                         Updated (Json.Int 4)])
      with ((trace w ++ [Logged debug (data_received (text "000094"))])
            ++ [Updated (Json.Int 4)])
      by (by rewrite <- app_assoc).
    reflexivity.
  - reflexivity.
Qed.

(** *** Framing and decoding back *)

(** The commands of [json_api.py]. *)
Inductive Command :=
| Echo
| PushPing
| Voltage
| SwitchToBle
| Activity (cmd : str).

Definition command_text (c : Command) : result str :=
  match c with
  | Echo => echo_cmd
  | PushPing => push_ping_cmd
  | Voltage => voltage_cmd
  | SwitchToBle => switch_to_ble_cmd
  | Activity cmd => activity_cmd cmd
  end.

(** The object that the body of a command writes. *)
Definition command_object (c : Command) : Json.value :=
  match c with
  | Echo => Json.Dict [(text "cmd", Json.Str (text "echo"))]
  | PushPing => Json.Dict [(text "cmd", Json.Str (text "pushping"))]
  | Voltage => Json.Dict [(text "cmd", Json.Str (text "voltage"))]
  | SwitchToBle => Json.Dict [(text "cmd", Json.Str (text "switch_to_ble"))]
  | Activity cmd =>
      Json.Dict [(text "cmd", Json.Str (text "activity.recieved"));
                 (text "data", Json.Dict [(text "output", Json.Str cmd)])]
  end.

(** A character that a JSON string holds as it is: not the double quote, not
    the backslash and no control character. *)
Definition plain (c : ascii) : bool :=
  negb (Ascii.eqb c dquote) && negb (Ascii.eqb c "\"%char)
  && negb (N_of_ascii c <? 32)%N.

(** A command whose text can be built and whose fragment needs no
    escaping. *)
Definition sendable (c : Command) : Prop :=
  match c with
  | Activity cmd => forallb plain cmd = true /\ len cmd <= 4042
  | _ => True
  end.

Lemma lex_plain (cmd rest acc : str) (out : list Json.token) :
  forallb plain cmd = true ->
  Json.lex (Json.InStr acc) out (cmd ++ rest)
  = Json.lex (Json.InStr (rev cmd ++ acc)) out rest.
Proof.
  revert acc. induction cmd as [|c cmd IH]; intros acc Hp; [done|].
  cbn in Hp. apply andb_prop in Hp as [Hc Hp].
  unfold plain in Hc. apply andb_prop in Hc as [Hc H32].
  apply andb_prop in Hc as [Hq Hb].
  apply negb_true_iff in Hq, Hb, H32.
  cbn [app Json.lex]. rewrite Hq, Hb, H32. rewrite IH by done.
  cbn [rev]. by rewrite <- app_assoc.
Qed.

Lemma loads_activity (cmd : str) :
  forallb plain cmd = true ->
  Json.loads (jtext "{'cmd':'activity.recieved','data':{'output':'"
              ++ cmd ++ jtext "'}}")
  = Some (command_object (Activity cmd)).
Proof.
  intros Hp. unfold Json.loads.
  assert (H1 : forall rest,
             Json.lex Json.Between []
               (jtext "{'cmd':'activity.recieved','data':{'output':'" ++ rest)
             = Json.lex (Json.InStr [])
                 [Json.Colon; Json.Quoted (text "output"); Json.LBrace;
                  Json.Colon; Json.Quoted (text "data"); Json.Comma;
                  Json.Quoted (text "activity.recieved"); Json.Colon;
                  Json.Quoted (text "cmd"); Json.LBrace] rest)
    by (intros rest; reflexivity).
  rewrite H1, lex_plain by done. rewrite app_nil_r.
  cbn [jtext text list_ascii_of_string map Json.lex Ascii.eqb Bool.eqb rev app].
  rewrite rev_involutive. reflexivity.
Qed.

Lemma command_well_formed (c : Command) :
  sendable c ->
  exists prefix body,
    command_text c = Ok (prefix ++ body)
    /\ well_formed (prefix, body, command_object c).
Proof.
  destruct c as [| | | |cmd]; intros Hs.
  - exists (text "000014"), (jtext "{'cmd':'echo'}"). repeat split.
  - exists (text "000018"), (jtext "{'cmd':'pushping'}"). repeat split.
  - exists (text "000017"), (jtext "{'cmd':'voltage'}"). repeat split.
  - exists (text "000023"), (jtext "{'cmd':'switch_to_ble'}"). repeat split.
  - destruct Hs as [Hp Hl].
    set (body := jtext "{'cmd':'activity.recieved','data':{'output':'"
                 ++ cmd ++ jtext "'}}").
    assert (Hlen : len body <= 4090).
    { unfold body. rewrite !len_app.
      change (len (jtext "{'cmd':'activity.recieved','data':{'output':'")) with 45.
      change (len (jtext "'}}")) with 3. lia. }
    destruct (json_length_ok body Hlen) as (prefix & Hj & H6 & Hd & Hi).
    exists prefix, body. split.
    + unfold command_text, activity_cmd, framed. fold body. by rewrite Hj.
    + repeat split; try done. by apply loads_activity.
Qed.

(** The state updater on the object of a command: recorded, nothing else. *)
Lemma update_state_command (c : Command) (w : World) :
  _update_state (command_object c) w
  = (Returned tt, set_trace (trace w ++ [Updated (command_object c)]) w).
Proof. destruct c; reflexivity. Qed.

Lemma for_each_update_state_commands (cs : list Command) (w : World) :
  for_each (map command_object cs) _update_state w
  = (Returned tt, set_trace (trace w ++ map Updated (map command_object cs)) w).
Proof.
  revert w. induction cs as [|c cs IH]; intros w.
  - cbn. rewrite app_nil_r. by destruct w.
  - cbn [map for_each]. rewrite bind_run, update_state_command, IH.
    cbn [trace set_trace]. rewrite <- app_assoc. reflexivity.
Qed.

(** The texts of the commands, one after the other; a command whose text
    cannot be built adds nothing. *)
Definition command_texts (cs : list Command) : str :=
  concat (map (fun c => match command_text c with
                        | Ok t => t
                        | Raise _ => []
                        end) cs).

(** C9. The texts of commands of [json_api.py], one after the other, in a
    read: the decoder hands the state updater the objects of their bodies,
    in order, and does nothing else; for [activity_cmd] provided that the
    fragment has no double quote, backslash or control character and that
    the body is within 4090 characters. With a double quote in the fragment
    the body is not the JSON text of an object holding the fragment: the
    decoder logs an error and hands over nothing. *)
Theorem commands_decode_back (cs : list Command) (w : World) :
  Forall sendable cs ->
  Forall (fun c => exists t, command_text c = Ok t) cs
  /\ _data_received_cb (command_texts cs) w
     = (Returned tt,
        set_trace (trace w ++ Logged debug (data_received (command_texts cs))
                           :: map Updated (map command_object cs)) w)
  /\ updates (trace (_data_received_cb
                       (command_texts [Activity [dquote]]) Robot_init).2)
     = [].
Proof.
  intros Hs.
  assert (Hf : exists frames,
             Forall well_formed frames
             /\ wire frames = command_texts cs
             /\ objects frames = map command_object cs).
  { induction Hs as [|c cs Hc _ (frames & Hwf & Hw & Ho)].
    - exists []. done.
    - destruct (command_well_formed c Hc) as (prefix & body & Ht & Hwf1).
      exists ((prefix, body, command_object c) :: frames).
      split; [by constructor|]. split.
      + unfold command_texts, wire in *. cbn [map concat]. by rewrite Ht, Hw.
      + unfold objects in *. cbn [map snd]. by rewrite Ho. }
  split; [|split].
  - eapply Forall_impl; [exact Hs|]. intros c Hc.
    destruct (command_well_formed c Hc) as (prefix & body & Ht & _). eauto.
  - destruct Hf as (frames & Hwf & Hw & Ho).
    rewrite <- Hw, (data_received_cb_frames frames w Hwf), Ho.
    unfold try_except_ValueError, log. unfold_bind.
    rewrite for_each_update_state_commands. cbn [trace set_trace].
    rewrite <- app_assoc. reflexivity.
  - vm_compute. reflexivity.
Qed.

Lemma commands_decode_back_witness :
  let cs := [Echo; Activity (text "<MO=EL,0.0,0.5> <PA><TE=cb.0>"); Voltage] in
  Forall sendable cs
  /\ updates (trace (_data_received_cb (command_texts cs) Robot_init).2)
     = map command_object cs.
Proof.
  intros cs.
  assert (Hs : Forall sendable cs).
  { repeat constructor; vm_compute; discriminate. }
  split; [exact Hs|].
  destruct (commands_decode_back cs Robot_init Hs) as (_ & Hd & _).
  rewrite Hd. reflexivity.
Defined.

(** * Further properties *)

(** ** The digits of a correlation identifier *)

Lemma hex_digits_acc (width : nat) (n : N) (acc : str) :
  hex_digits width n acc = hex_digits width n [] ++ acc.
Proof.
  revert n acc. induction width as [|width IH]; intros n acc; [done|].
  cbn [hex_digits]. rewrite (IH _ (_ :: acc)), (IH _ [_]).
  by rewrite <- app_assoc.
Qed.

(** The digits of a wider text end with those of a narrower one. *)
Lemma hex_digits_split (high low : nat) (n : N) :
  hex_digits (high + low) n []
  = hex_digits high (n / 16 ^ N.of_nat low) [] ++ hex_digits low n [].
Proof.
  revert n. induction low as [|low IH]; intros n.
  - rewrite Nat.add_0_r. cbn [N.of_nat N.pow hex_digits]. rewrite N.div_1_r.
    by rewrite app_nil_r.
  - replace (high + S low)%nat with (S (high + low)) by lia.
    cbn [hex_digits].
    rewrite (hex_digits_acc (high + low)), IH.
    rewrite (hex_digits_acc low (n / 16) [_]). rewrite <- app_assoc.
    rewrite Nat2N.inj_succ, N.pow_succ_r', N.Div0.div_div. done.
Qed.

Lemma uuid_digits (u : N) :
  replace (str_of_uuid u) (text "-") [] = hex_digits 32 u [].
Proof.
  change (text "-") with ["-"%char]. rewrite replace_char_by_nothing.
  unfold str_of_uuid. cbv zeta.
  pose proof (length_hex_digits 32 u []) as Hl.
  pose proof (hex_digits_not_hyphen 32 u [] eq_refl) as Hh.
  change (32 + length (@nil ascii))%nat with 32%nat in Hl.
  revert Hl Hh. generalize (hex_digits 32 u []). intros hex Hl Hh.
  assert (Hs : forall a b : Z,
             0 <= a <= b /\ b <= 32 ->
             slice hex (Some a) (Some b)
             = take (Z.to_nat (b - a)) (drop (Z.to_nat a) hex)).
  { intros a b Hab. unfold slice. rewrite !adjust_index_within
      by (unfold len; lia). reflexivity. }
  assert (Hs0 : slice hex None (Some 8) = take 8 hex).
  { unfold slice, adjust_index, len. rewrite Hl. reflexivity. }
  assert (Hs4 : slice hex (Some 20) None = drop 20 hex).
  { unfold slice, adjust_index, len. rewrite Hl. cbn -[take drop].
    apply firstn_all2. rewrite length_drop. lia. }
  rewrite Hs0, Hs4, (Hs 8 12), (Hs 12 16), (Hs 16 20) by lia.
  repeat rewrite List.filter_app.
  change (List.filter (fun x => negb (Ascii.eqb "-"%char x)) (text "-"))
    with (@nil ascii).
  fold not_hyphen.
  rewrite !filter_all
    by (repeat first [apply forallb_take | apply forallb_drop]; exact Hh).
  cbn [app]. change (Z.to_nat (12 - 8)) with 4%nat.
  change (Z.to_nat (16 - 12)) with 4%nat. change (Z.to_nat (20 - 16)) with 4%nat.
  change (Z.to_nat 8) with 8%nat. change (Z.to_nat 12) with 12%nat.
  change (Z.to_nat 16) with 16%nat.
  assert (Hd : forall a b c : nat,
             c = (a + b)%nat ->
             take b (drop a hex) ++ drop c hex = drop a hex).
  { intros a b c ->. rewrite <- drop_drop. apply take_drop. }
  rewrite (Hd 16 4 20)%nat, (Hd 12 4 16)%nat, (Hd 8 4 12)%nat by reflexivity.
  apply take_drop.
Qed.

(** The identifier is [cb.] and the 22 leading hexadecimal digits of the
    UUID. *)
Lemma generate_id_digits (u : N) :
  generate_id u = text "cb." ++ hex_digits 22 (u / 16 ^ 10) [].
Proof.
  unfold generate_id. rewrite uuid_digits. f_equal.
  pose proof (length_hex_digits 32 u []) as Hl.
  pose proof (length_hex_digits 22 (u / 16 ^ 10) []) as Hl22.
  change (32 + length (@nil ascii))%nat with 32%nat in Hl.
  change (22 + length (@nil ascii))%nat with 22%nat in Hl22.
  pose proof (hex_digits_split 22 10 u) as Hsp.
  change (22 + 10)%nat with 32%nat in Hsp.
  change (N.of_nat 10) with 10%N in Hsp.
  revert Hl Hl22 Hsp.
  generalize (hex_digits 32 u []), (hex_digits 22 (u / 16 ^ 10) []),
    (hex_digits 10 u []).
  intros h32 h22 h10 Hl Hl22 ->.
  assert (Hs : slice (h22 ++ h10) None (Some (-10)) = take 22 (h22 ++ h10)).
  { unfold slice, adjust_index, len. rewrite Hl. reflexivity. }
  rewrite Hs. by apply take_app_length'.
Qed.

Lemma hex_digit_code (d : N) :
  (d < 16)%N ->
  N_of_ascii (hex_digit d) = (if (d <? 10)%N then 48 + d else 87 + d)%N.
Proof.
  intros Hd. unfold hex_digit.
  destruct (N.ltb_spec d 10); apply N_ascii_embedding; lia.
Qed.

Lemma hex_digit_inj (d e : N) :
  (d < 16)%N -> (e < 16)%N -> hex_digit d = hex_digit e -> d = e.
Proof.
  intros Hd He Heq. apply (f_equal N_of_ascii) in Heq.
  rewrite !hex_digit_code in Heq by done.
  destruct (N.ltb_spec d 10), (N.ltb_spec e 10); lia.
Qed.

Lemma hex_digits_snoc (width : nat) (n : N) :
  hex_digits (S width) n []
  = hex_digits width (n / 16) [] ++ [hex_digit (n mod 16)].
Proof. cbn [hex_digits]. apply hex_digits_acc. Qed.

Lemma mod_pow16_succ (width : nat) (n : N) :
  (n mod 16 ^ N.of_nat (S width)
   = n mod 16 + 16 * ((n / 16) mod 16 ^ N.of_nat width))%N.
Proof.
  rewrite Nat2N.inj_succ, N.pow_succ_r'. apply N.Div0.mod_mul_r.
Qed.

(** The [width] digits of two numbers are the same exactly when the numbers
    agree modulo [16 ^ width]. *)
Lemma hex_digits_same (width : nat) (n m : N) :
  hex_digits width n [] = hex_digits width m []
  <-> (n mod 16 ^ N.of_nat width = m mod 16 ^ N.of_nat width)%N.
Proof.
  revert n m. induction width as [|width IH]; intros n m.
  - cbn. rewrite !N.mod_1_r. done.
  - rewrite !hex_digits_snoc, !mod_pow16_succ.
    pose proof (N.mod_lt n 16 ltac:(done)) as Hn.
    pose proof (N.mod_lt m 16 ltac:(done)) as Hm.
    split.
    + intros Heq. apply app_inj_tail in Heq as [Hhigh Hlow].
      apply IH in Hhigh. apply hex_digit_inj in Hlow; [|done|done].
      by rewrite Hhigh, Hlow.
    + specialize (IH (n / 16)%N (m / 16)%N). revert Hn Hm IH.
      generalize (n mod 16)%N, (m mod 16)%N,
        ((n / 16) mod 16 ^ N.of_nat width)%N,
        ((m / 16) mod 16 ^ N.of_nat width)%N.
      intros a a' b b' Ha Ha' IH Heq.
      assert (a = a') as -> by lia. assert (b = b') as Hb by lia.
      apply IH in Hb. by rewrite Hb.
Qed.

(** X1. Two UUIDs get the same correlation identifier exactly when they
    agree on the 88 bits above their 40 lowest bits: [generate_id] drops the
    ten last hexadecimal digits of the UUID and keeps the 22 before them. *)
Theorem generate_id_same_iff (u v : N) :
  generate_id u = generate_id v
  <-> ((u / 2 ^ 40) mod 2 ^ 88 = (v / 2 ^ 40) mod 2 ^ 88)%N.
Proof.
  rewrite !generate_id_digits.
  change (16 ^ 10)%N with (2 ^ 40)%N.
  change (2 ^ 88)%N with (16 ^ N.of_nat 22)%N.
  rewrite <- hex_digits_same. split.
  - intros Heq. by apply app_inv_head in Heq.
  - intros ->. done.
Qed.

(** ** From dispatch to completion *)

Lemma hex_digits_forall (P : ascii -> bool) (width : nat) (n : N) (acc : str) :
  (forall d, (d < 16)%N -> P (hex_digit d) = true) ->
  forallb P acc = true ->
  forallb P (hex_digits width n acc) = true.
Proof.
  intros HP. revert n acc.
  induction width as [|width IH]; intros n acc Hacc; [done|].
  cbn [hex_digits]. apply IH. cbn [forallb]. rewrite Hacc, andb_true_r.
  apply HP. by apply N.mod_lt.
Qed.

Lemma hex_digit_plain (d : N) : (d < 16)%N -> plain (hex_digit d) = true.
Proof.
  intros Hd.
  assert (Hall : forallb (fun k => plain (hex_digit (N.of_nat k))) (seq 0 16) = true)
    by (vm_compute; reflexivity).
  rewrite forallb_forall in Hall.
  rewrite <- (N2Nat.id d). apply Hall. apply in_seq. lia.
Qed.

(** An identifier needs no escaping in a JSON string. *)
Lemma generate_id_plain (u : N) : forallb plain (generate_id u) = true.
Proof.
  rewrite generate_id_digits, forallb_app. apply andb_true_intro.
  split; [reflexivity|]. apply hex_digits_forall; [apply hex_digit_plain|done].
Qed.

(** The notification [{"trigger": "<trigger>"}] in its envelope, for a
    trigger of 25 characters. *)
Definition trigger_envelope (trigger : str) : str :=
  jtext "000039{'trigger':'" ++ trigger ++ jtext "'}".

Definition trigger_object (trigger : str) : Json.value :=
  Json.Dict [(text "trigger", Json.Str trigger)].

Lemma loads_trigger (trigger : str) :
  forallb plain trigger = true ->
  Json.loads (jtext "{'trigger':'" ++ trigger ++ jtext "'}")
  = Some (trigger_object trigger).
Proof.
  intros Hp. unfold Json.loads.
  assert (H1 : forall rest,
             Json.lex Json.Between [] (jtext "{'trigger':'" ++ rest)
             = Json.lex (Json.InStr [])
                 [Json.Colon; Json.Quoted (text "trigger"); Json.LBrace] rest)
    by (intros rest; reflexivity).
  rewrite H1, lex_plain by done. rewrite app_nil_r.
  cbn [jtext text list_ascii_of_string map Json.lex Ascii.eqb Bool.eqb rev app].
  rewrite rev_involutive. reflexivity.
Qed.

Lemma trigger_envelope_well_formed (trigger : str) :
  forallb plain trigger = true -> length trigger = 25%nat ->
  well_formed (text "000039", jtext "{'trigger':'" ++ trigger ++ jtext "'}",
               trigger_object trigger).
Proof.
  intros Hp Hl. repeat split; [|by apply loads_trigger].
  rewrite !len_app. unfold len. rewrite Hl. reflexivity.
Qed.

Lemma done_returns (h : nat) (w : World) : (done h w).1 = Returned tt.
Proof.
  destruct (handles w !! h) as [self|] eqn:Hh.
  - by destruct (done_run h self w Hh) as (w' & -> & _).
  - unfold done, update_handle. unfold_bind. cbn [handles set_handles].
    rewrite list_lookup_alter_eq, Hh. reflexivity.
Qed.

Lemma set_action_handle_done_returns (action_id : str) (w : World) :
  (_set_action_handle_done action_id w).1 = Returned tt.
Proof.
  unfold _set_action_handle_done. unfold_bind.
  destruct (_action_handles w !! action_id) as [[count ah]|]; [|reflexivity].
  cbv zeta. destruct (count + 1 >? 1); [|reflexivity]. apply done_returns.
Qed.

Lemma trigger_envelope_parts (trigger : str) :
  text "000039" ++ jtext "{'trigger':'" ++ trigger ++ jtext "'}"
  = trigger_envelope trigger.
Proof. reflexivity. Qed.

(** The decoder on the envelope of a completion trigger: the trigger goes
    to the registry. *)
Lemma data_received_cb_trigger (u : N) (w : World) :
  let trigger := generate_id u in
  _data_received_cb (trigger_envelope trigger) w
  = _set_action_handle_done trigger
      (set_trace (trace w ++ [Logged debug (data_received (trigger_envelope trigger));
                              Updated (trigger_object trigger);
                              Logged debug (trigger_received trigger)]) w).
Proof.
  intros trigger.
  pose proof (trigger_envelope_well_formed trigger (generate_id_plain u)
                (length_generate_id u)) as Hwf.
  pose proof (data_received_cb_frames [_] w (Forall_cons_2 _ _ _ Hwf (Forall_nil_2 _)))
    as H.
  unfold wire, objects in H. cbn [map concat snd] in H.
  rewrite app_nil_r in H.
  rewrite trigger_envelope_parts in H.
  rewrite H. rewrite bind_run. unfold log at 1, emit, modify.
  unfold try_except_ValueError. cbn [for_each]. rewrite bind_run.
  rewrite (update_state_completion [(text "trigger", Json.Str trigger)] trigger);
    [|reflexivity|reflexivity|reflexivity|apply startswith_app].
  unfold log. unfold_bind.
  set (w3 := set_trace
               (trace w ++ [Logged debug (data_received (trigger_envelope trigger));
                            Updated (trigger_object trigger);
                            Logged debug (trigger_received trigger)]) w).
  match goal with
  | |- context [_set_action_handle_done trigger ?w1] =>
      replace w1 with w3
        by (unfold w3; cbn [trace set_trace]; rewrite <- !app_assoc; reflexivity)
  end.
  pose proof (set_action_handle_done_returns trigger w3) as Hret.
  destruct (_set_action_handle_done trigger w3) as [o w'].
  cbn [fst] in Hret. subst o. reflexivity.
Qed.

Lemma set_action_handle_done_first (action_id : str) (h : nat) (w : World) :
  _action_handles w !! action_id = Some (0, h) ->
  _set_action_handle_done action_id w
  = (Returned tt,
     set_action_handles (<[action_id := (1, h)]> (_action_handles w)) w).
Proof.
  intros Hl. unfold _set_action_handle_done. unfold_bind. rewrite Hl. reflexivity.
Qed.

Lemma set_action_handle_done_again (action_id : str) (count : Z) (h : nat)
    (w : World) :
  _action_handles w !! action_id = Some (count, h) -> 0 < count ->
  _set_action_handle_done action_id w
  = done h (set_action_handles (delete action_id (_action_handles w)) w).
Proof.
  intros Hl Hc. unfold _set_action_handle_done. unfold_bind. rewrite Hl.
  cbv zeta. destruct (Z.gtb_spec (count + 1) 1); [reflexivity|lia].
Qed.

(** The callbacks of a dispatched handle, run: the caller's callback first,
    then the robot is marked idle at the time of the clock. *)
Lemma done_dispatched (h : nat) (self : ActionHandle) (cb : option nat)
    (w : World) :
  handles w !! h = Some self ->
  callbacks self = match cb with Some n => [done_cb n] | None => [] end
                   ++ [Robot_set_action_done] ->
  done h w
  = (Returned tt,
     set_is_action_active false
       (set_last_cmd_time (clock w)
          (set_trace (trace w ++ map Called (callbacks self))
             (set_handles (<[h := set_event self]> (handles w)) w)))).
Proof.
  intros Hh Hcb. unfold done, update_handle. unfold_bind.
  cbn [handles set_handles]. rewrite list_lookup_alter_eq, Hh. cbn [fmap option_fmap option_map callbacks].
  assert (Ha : alter (fun self0 => {| id := id self0; callbacks := callbacks self0;
                                      timeout := timeout self0; event_ := true;
                                      timer_started := timer_started self0 |}) h
                 (handles w)
               = <[h := set_event self]> (handles w)).
  { apply list_eq. intros i. destruct (decide (i = h)) as [->|Hne].
    - rewrite list_lookup_alter_eq, Hh.
      rewrite list_lookup_insert_eq; [done|]. by eapply lookup_lt_Some.
    - rewrite list_lookup_alter_ne, list_lookup_insert_ne; done. }
  rewrite Ha, Hcb. destruct cb as [n|]; cbn [app for_each map];
    unfold call, _set_action_done, emit; unfold_bind;
    cbn [trace set_trace clock set_last_cmd_time set_is_action_active];
    rewrite <- ?app_assoc; reflexivity.
Qed.

Ltac project :=
  cbn [version voltage _keep_alive_secs _action_handles _is_action_active
       _is_running _last_cmd_time handles clock trace
       set_version set_voltage set_action_handles set_is_action_active
       set_last_cmd_time set_handles set_trace dispatched fst snd].

(** X2. A text sent by [Robot.say] and the two triggers that the robot sends
    back for it, each read in its envelope: after the first read the handle
    is still pending and the action still active; after the second the
    handle is complete, the caller's callback and then
    [Robot._set_action_done] have been called once each, the action is no
    longer active, the time of the last command is that of the clock, and
    the registry no longer holds the identifier. *)
Theorem say_completes_on_second_trigger
    (u : N) (said : str) (cb : option nat) (cmd : str) (w : World) :
  activity_cmd (say_fragment u said) = Ok cmd ->
  let h := length (handles w) in
  let trigger := generate_id u in
  let received := [Logged debug (data_received (trigger_envelope trigger));
                   Updated (trigger_object trigger);
                   Logged debug (trigger_received trigger)] in
  let r0 := say u said cb w in
  let r1 := _data_received_cb (trigger_envelope trigger) r0.2 in
  let r2 := _data_received_cb (trigger_envelope trigger) r1.2 in
  r0.1 = Returned h
  /\ (r1.1 = Returned tt
      /\ wait_returns h r1.2 = false
      /\ _is_action_active r1.2 = true
      /\ _action_handles r1.2 !! trigger = Some (1, h)
      /\ trace r1.2 = trace w ++ Sent cmd :: received)
  /\ (r2.1 = Returned tt
      /\ wait_returns h r2.2 = true
      /\ _is_action_active r2.2 = false
      /\ _last_cmd_time r2.2 = clock w
      /\ _action_handles r2.2 !! trigger = None
      /\ trace r2.2
         = trace w ++ Sent cmd :: received ++ received
           ++ map Called (match cb with Some n => [done_cb n] | None => [] end
                          ++ [Robot_set_action_done])).
Proof.
  intros Hcmd h trigger received r0 r1 r2. subst trigger received.
  pose proof (data_received_cb_trigger u) as Hd. cbv zeta in Hd.
  set (trigger := generate_id u) in *.
  set (received := [Logged debug (data_received (trigger_envelope trigger));
                    Updated (trigger_object trigger);
                    Logged debug (trigger_received trigger)]) in *.
  assert (E0 : r0 = (Returned h,
                     set_trace (trace w ++ [Sent cmd]) (dispatched u cb w)))
    by (unfold r0; rewrite say_run, Hcmd; reflexivity).
  set (w0 := set_trace (trace w ++ [Sent cmd]) (dispatched u cb w)) in *.
  set (w0' := set_trace (trace w0 ++ received) w0).
  assert (E1 : r1 = (Returned tt,
                     set_action_handles
                       (<[trigger := (1, h)]> (_action_handles w0')) w0')).
  { unfold r1. rewrite E0. cbn [snd]. rewrite (Hd w0).
    apply set_action_handle_done_first. unfold w0', w0. project.
    apply lookup_insert_eq. }
  set (w1 := set_action_handles (<[trigger := (1, h)]> (_action_handles w0')) w0')
    in *.
  set (w1' := set_trace (trace w1 ++ received) w1).
  assert (Hh : handles w1' !! h = Some (new_handle u cb))
    by (unfold w1', w1, w0', w0; project; apply lookup_last).
  assert (E2 : r2 = done h (set_action_handles
                              (delete trigger (_action_handles w1')) w1')).
  { unfold r2. rewrite E1. cbn [snd]. rewrite (Hd w1).
    apply (set_action_handle_done_again trigger 1 h w1'); [|lia].
    unfold w1', w1. project. apply lookup_insert_eq. }
  rewrite (done_dispatched h (new_handle u cb) cb) in E2; [|exact Hh|reflexivity].
  split; [by rewrite E0|]. split.
  - rewrite E1. unfold w1, w0', w0. project.
    split; [done|]. unfold wait_returns. project. unfold h. rewrite lookup_last.
    split; [done|]. split; [done|]. split; [apply lookup_insert_eq|].
    by rewrite <- app_assoc.
  - rewrite E2. project. split; [done|].
    split.
    { unfold wait_returns. project. rewrite list_lookup_insert_eq; [done|].
      by eapply lookup_lt_Some. }
    split; [done|]. split; [reflexivity|].
    split; [unfold w1', w1; project; apply lookup_delete_eq|].
    unfold w1', w1, w0', w0. project. cbn [callbacks new_handle].
    rewrite <- !app_assoc. reflexivity.
Qed.

Lemma say_completes_on_second_trigger_witness :
  let trigger := generate_id 7 in
  let w0 := (say 7 (text "hi") (Some 0%nat) Robot_init).2 in
  let w2 := (_data_received_cb (trigger_envelope trigger)
               (_data_received_cb (trigger_envelope trigger) w0).2).2 in
  activity_cmd (say_fragment 7 (text "hi"))
  = Ok (jtext "000080{'cmd':'activity.recieved','data':{'output':'hi<TE=cb.0000000000000000000000>'}}")
  /\ wait_returns 0 w2 = true
  /\ _is_action_active w2 = false.
Proof.
  intros trigger w0 w2.
  assert (Hcmd : activity_cmd (say_fragment 7 (text "hi"))
                 = Ok (jtext "000080{'cmd':'activity.recieved','data':{'output':'hi<TE=cb.0000000000000000000000>'}}"))
    by (vm_compute; reflexivity).
  split; [exact Hcmd|].
  destruct (say_completes_on_second_trigger 7 (text "hi") (Some 0%nat) _
              Robot_init Hcmd) as (_ & _ & _ & Hw & Ha & _).
  split; [exact Hw | exact Ha].
Defined.

(** ** The loop of the decoder ends *)

Lemma adjust_index_range (n i : Z) : 0 <= n -> 0 <= adjust_index n i <= n.
Proof. intros Hn. unfold adjust_index. destruct (Z.ltb_spec i 0); lia. Qed.

Lemma slice_nonempty (s : str) (a b : Z) :
  slice s (Some a) (Some b) <> [] ->
  adjust_index (len s) a < adjust_index (len s) b.
Proof.
  unfold slice. intros Hne.
  destruct (Z_lt_le_dec (adjust_index (len s) a) (adjust_index (len s) b))
    as [|Hle]; [done|].
  exfalso. apply Hne.
  replace (Z.to_nat (adjust_index (len s) b - adjust_index (len s) a))
    with 0%nat by lia.
  reflexivity.
Qed.

Lemma find_from_range (i : Z) (s : str) (c : ascii) :
  find_from i s [c] = -1 \/ i <= find_from i s [c] < i + len s.
Proof.
  revert i. induction s as [|x s IH]; intros i.
  - left. reflexivity.
  - cbn [find_from]. destruct (startswith (x :: s) [c]).
    + right. unfold len. cbn [length]. lia.
    + destruct (IH (i + 1)) as [->|Hr]; [by left|].
      right. unfold len in *. cbn [length]. lia.
Qed.

Lemma len_slice_from (s : str) (a : Z) :
  len (slice s (Some a) None) = len s - adjust_index (len s) a.
Proof.
  pose proof (adjust_index_range (len s) a ltac:(unfold len; lia)) as Hr.
  unfold slice. unfold len in *. rewrite length_take, length_drop. lia.
Qed.

(** The place in the read that an index of a slice stands for. *)
Definition place (msg : str) (i : Z) : Z := adjust_index (len msg) i.

(** A turn that decodes an object moves forward: the index it leaves
    stands for a later place of the read. The digits and the text of the
    object are slices that are not empty, and a slice that is not empty ends
    after its start, also when [find] has returned -1. *)
Lemma data_received_turn_forward (msg : str) (prev_index start_index end_index : Z) :
  int (slice msg (Some prev_index) (Some start_index)) <> None ->
  Json.loads (slice msg (Some start_index) (Some end_index)) <> None ->
  place msg prev_index < place msg end_index.
Proof.
  intros Hint Hload.
  assert (Hdigits : slice msg (Some prev_index) (Some start_index) <> [])
    by (intros E; by rewrite E in Hint).
  assert (Hsub : slice msg (Some start_index) (Some end_index) <> [])
    by (intros E; by rewrite E in Hload).
  apply slice_nonempty in Hdigits, Hsub. unfold place. lia.
Qed.

Lemma trigger_part_fuel (data : Json.value) (w : World) :
  (trigger_part data w).1 <> OutOfFuel.
Proof.
  unfold trigger_part. unfold_bind.
  destruct (Json.contains (text "trigger") data) as [[]|]; try discriminate.
  destruct (Json.getitem data (text "trigger")) as [[]|]; try discriminate.
  destruct (startswith s (text "voltage.")).
  - destruct (float_of_str _); discriminate.
  - destruct (startswith s (text "cb.")); [|discriminate].
    rewrite (set_action_handle_done_returns s
               (set_trace (trace w ++ [Logged debug (trigger_received s)]) w)).
    discriminate.
Qed.

Lemma update_state_fuel (data : Json.value) (w : World) :
  (_update_state data w).1 <> OutOfFuel.
Proof.
  unfold _update_state. fold (trigger_part data). unfold_bind.
  destruct (Json.contains (text "device") data) as [[]|]; cbv beta iota;
    [| |discriminate].
  - destruct (true && _).
    + destruct (Json.getitem data (text "device")) as [device|]; [|discriminate].
      destruct (Json.getitem device (text "version")) as [v|]; [|discriminate].
      cbv beta iota. apply trigger_part_fuel.
    + apply trigger_part_fuel.
  - cbn [andb]. apply trigger_part_fuel.
Qed.

(** With more fuel than places are left the loop does not run out of it. *)
Lemma data_received_loop_fuel (fuel : nat) (msg : str) (prev_index : Z)
    (w : World) :
  (Z.to_nat (len msg - place msg prev_index) < fuel)%nat ->
  (_data_received_loop fuel msg (len msg) prev_index w).1 <> OutOfFuel.
Proof.
  revert prev_index w. induction fuel as [|fuel IH]; intros prev_index w Hf;
    [lia|].
  cbn [_data_received_loop].
  destruct (prev_index <? len msg); [|discriminate].
  set (start_index := prev_index + find (slice msg (Some prev_index) None) (text "{")).
  unfold_bind.
  destruct (int (slice msg (Some prev_index) (Some start_index)))
    as [sub_msg_len|] eqn:Hint; [|discriminate].
  destruct (Json.loads (slice msg (Some start_index)
                          (Some (start_index + sub_msg_len))))
    as [data|] eqn:Hload; [|discriminate].
  destruct (_update_state data w) as [[[]|e|] w1] eqn:Hu.
  - apply IH.
    pose proof (data_received_turn_forward msg prev_index start_index
                  (start_index + sub_msg_len)) as Hfw.
    rewrite Hint, Hload in Hfw. specialize (Hfw ltac:(done) ltac:(done)).
    pose proof (adjust_index_range (len msg) prev_index
                  ltac:(unfold len; lia)).
    pose proof (adjust_index_range (len msg) (start_index + sub_msg_len)
                  ltac:(unfold len; lia)).
    unfold place in *. lia.
  - discriminate.
  - exfalso. apply (update_state_fuel data w). by rewrite Hu.
Qed.

(** X3. The decoder ends on every read: its loop cannot turn forever, since
    a turn either raises or moves to a later place of the read. It returns,
    after logging an error when a [ValueError] was raised, or it raises an
    exception that is not a [ValueError]. The callbacks of the caller are
    taken to return. *)
Theorem data_received_cb_ends (msg : str) (w : World) :
  match (_data_received_cb msg w).1 with
  | Returned _ => True
  | Raised e => e <> ValueError
  | OutOfFuel => False
  end.
Proof.
  unfold _data_received_cb, try_except_ValueError. unfold log at 1.
  unfold_bind. cbv zeta.
  set (w1 := set_trace (trace w ++ [Logged debug (data_received msg)]) w).
  pose proof (data_received_loop_fuel (S (length msg)) msg 0 w1) as Hf.
  destruct (_data_received_loop (S (length msg)) msg (len msg) 0 w1)
    as [[[]|[]|] w2]; cbn [fst] in *; try done.
  apply Hf; [|done].
  pose proof (adjust_index_range (len msg) 0 ltac:(unfold len; lia)).
  unfold place, len in *. lia.
Qed.


(** ** The walking actions *)

(** The method of [Robot] that walks in a direction. *)
Definition walk (d : Builders.WalkDirection) : N -> Z -> option nat -> M nat :=
  match d with
  | Builders.WalkDirection_forward => walk_forward
  | Builders.WalkDirection_backward => walk_backward
  | Builders.WalkDirection_left => walk_left
  | Builders.WalkDirection_right => walk_right
  end.

(** The handle of a walking action once its timer is started. *)
Definition walk_handle (u : N) (cb : option nat) (seconds : Q) : ActionHandle :=
  {| id := generate_id u;
     callbacks := match cb with Some n => [done_cb n] | None => [] end
                  ++ [Robot_set_action_done];
     timeout := Some seconds; event_ := false; timer_started := true |}.

Lemma walk_run (d : Builders.WalkDirection) (u : N) (steps : Z)
    (cb : option nat) (w : World) :
  walk d u steps cb w
  = match Builders.WalkCommandBuilder_init d steps with
    | Raise e => (Raised e, set_is_action_active true w)
    | Ok builder =>
        let w1 := set_handles
                    (handles w
                     ++ [walk_handle u cb (Builders.WalkCommandBuilder_duration builder)])
                    (set_is_action_active true w) in
        match activity_cmd (Builders.WalkCommandBuilder_build builder) with
        | Ok cmd => (Returned (length (handles w)),
                     set_trace (trace w ++ [Sent cmd]) w1)
        | Raise e =>
            (Raised e,
             set_handles
               (handles w
                ++ [{| id := generate_id u;
                       callbacks := callbacks (walk_handle u cb 0);
                       timeout := Some (Builders.WalkCommandBuilder_duration builder);
                       event_ := false; timer_started := false |}])
               (set_is_action_active true w))
        end
    end.
Proof.
  destruct d; unfold walk, walk_forward, walk_backward, walk_left, walk_right,
    Functional.walk_forward, Functional.walk_backward, Functional.walk_left,
    Functional.walk_right, walk_handle, start_timer; unfold_monad;
    (destruct (Builders.WalkCommandBuilder_init _ steps) as [builder|e];
     [|reflexivity]);
    generalize (generate_id u); intros gid;
    change (Builders.build builder)
      with (Builders.WalkCommandBuilder_build builder);
    generalize (activity_cmd (Builders.WalkCommandBuilder_build builder));
    intros [cmd|e]; destruct cb as [n|]; run_handles;
    cbv [log emit modify mbind M_bind mret M_ret get]; run_handles; reflexivity.
Qed.

(** While an action is marked active a turn of the keep-alive loop changes
    nothing. *)
Lemma keep_alive_turn_active (w : World) :
  _is_action_active w = true ->
  _keep_alive_turn w = (Returned (_is_running w), w).
Proof.
  intros Ha. unfold _keep_alive_turn. unfold_bind. rewrite Ha.
  by destruct (_is_running w).
Qed.

Lemma walk_init_invalid (d : Builders.WalkDirection) (steps : Z) :
  ~ 1 <= steps <= 10 -> Builders.WalkCommandBuilder_init d steps = Raise ValueError.
Proof.
  intros Hs. unfold Builders.WalkCommandBuilder_init.
  destruct (Z.ltb_spec 0 steps), (Z.ltb_spec steps 11); cbn; try done. lia.
Qed.

Lemma walk_init_valid (d : Builders.WalkDirection) (steps : Z) :
  1 <= steps <= 10 ->
  Builders.WalkCommandBuilder_init d steps
  = Ok {| Builders.steps := steps; Builders.direction := d |}.
Proof.
  intros Hs. unfold Builders.WalkCommandBuilder_init.
  destruct (Z.ltb_spec 0 steps), (Z.ltb_spec steps 11); cbn; try done; lia.
Qed.

(** X4. A walking action asked for a number of steps outside 1..10 raises
    [ValueError]: nothing is sent and no handle is made, but the action has
    already been marked active and stays so, and a turn of the keep-alive
    loop after it sends nothing. *)
Theorem walk_invalid_steps (d : Builders.WalkDirection) (u : N) (steps : Z)
    (cb : option nat) (w : World) :
  ~ 1 <= steps <= 10 ->
  let r := walk d u steps cb w in
  r = (Raised ValueError, set_is_action_active true w)
  /\ _keep_alive_turn r.2 = (Returned (_is_running w), r.2).
Proof.
  intros Hs r.
  assert (Hr : r = (Raised ValueError, set_is_action_active true w))
    by (unfold r; rewrite walk_run, walk_init_invalid by done; reflexivity).
  split; [exact Hr|]. rewrite Hr. cbn [snd].
  rewrite keep_alive_turn_active by reflexivity. reflexivity.
Qed.

Lemma walk_invalid_steps_witness :
  ~ 1 <= 11 <= 10
  /\ walk_forward 7 11 None Robot_init
     = (Raised ValueError, set_is_action_active true Robot_init).
Proof.
  assert (Hs : ~ 1 <= 11 <= 10) by lia.
  split; [exact Hs|].
  exact (proj1 (walk_invalid_steps Builders.WalkDirection_forward 7 11 None
                  Robot_init Hs)).
Defined.

(** The text of a walking command: the number of steps, 0 for one step. *)
Definition walk_text (d : Builders.WalkDirection) (steps : Z) : str :=
  Builders.WalkCommandBuilder_COMMANDS d
    (str_of_Z (if steps =? 1 then 0 else steps)).

Lemma walk_cmd_ok (d : Builders.WalkDirection) (steps : Z) :
  1 <= steps <= 10 -> exists cmd, activity_cmd (walk_text d steps) = Ok cmd.
Proof.
  intros Hs.
  assert (Hc : steps = 1 \/ steps = 2 \/ steps = 3 \/ steps = 4 \/ steps = 5
               \/ steps = 6 \/ steps = 7 \/ steps = 8 \/ steps = 9 \/ steps = 10)
    by lia.
  destruct d;
    repeat (destruct Hc as [->|Hc]; [eexists; vm_compute; reflexivity|]);
    subst; eexists; vm_compute; reflexivity.
Qed.

(** X5. A walking action asked for 1 to 10 steps sends the command of its
    direction with the number of steps, 0 standing for one step, starts the
    timer of a new handle for the time of a step times the number of steps,
    and does not put the handle in the registry. When the timer fires the
    handle completes: its callbacks are called, the action is no longer
    active and the time of the last command is that of the clock. *)
Theorem walk_valid_steps (d : Builders.WalkDirection) (u : N) (steps : Z)
    (cb : option nat) (w : World) :
  1 <= steps <= 10 ->
  let h := length (handles w) in
  let seconds := (Builders.WalkCommandBuilder_STEP_TIMES d * (steps # 1))%Q in
  let r := walk d u steps cb w in
  let fired := timer_fires h r.2 in
  exists cmd,
    activity_cmd (walk_text d steps) = Ok cmd
    /\ r = (Returned h,
            set_trace (trace w ++ [Sent cmd])
              (set_handles (handles w ++ [walk_handle u cb seconds])
                 (set_is_action_active true w)))
    /\ _action_handles r.2 = _action_handles w
    /\ fired.1 = Returned tt
    /\ wait_returns h fired.2 = true
    /\ _is_action_active fired.2 = false
    /\ _last_cmd_time fired.2 = clock w
    /\ trace fired.2
       = trace w ++ Sent cmd
         :: map Called (match cb with Some n => [done_cb n] | None => [] end
                        ++ [Robot_set_action_done]).
Proof.
  intros Hs h seconds r fired.
  destruct (walk_cmd_ok d steps Hs) as (cmd & Hcmd). exists cmd.
  split; [exact Hcmd|].
  assert (Hr : r = (Returned h,
            set_trace (trace w ++ [Sent cmd])
              (set_handles (handles w ++ [walk_handle u cb seconds])
                 (set_is_action_active true w)))).
  { unfold r. rewrite walk_run, walk_init_valid by done. cbv zeta.
    change (Builders.WalkCommandBuilder_build _) with (walk_text d steps).
    rewrite Hcmd. reflexivity. }
  split; [exact Hr|]. split; [by rewrite Hr|].
  unfold fired, timer_fires. rewrite Hr. cbn [snd].
  rewrite (done_dispatched h (walk_handle u cb seconds) cb);
    [|project; apply lookup_last|reflexivity].
  project. split; [done|]. split.
  { unfold wait_returns. project. rewrite list_lookup_insert_eq; [done|].
    rewrite length_app. cbn. unfold h. lia. }
  split; [done|]. split; [done|]. cbn [callbacks walk_handle].
  by rewrite <- app_assoc.
Qed.

Lemma walk_valid_steps_witness :
  1 <= 1 <= 10
  /\ trace (walk_left 7 1 None Robot_init).2
     = [Sent (jtext "000057{'cmd':'activity.recieved','data':{'output':'<WK=WL,0>'}}")]
  /\ timeout <$> handles (walk_left 7 1 None Robot_init).2 !! 0%nat
     = Some (Some (11 # 10)%Q).
Proof.
  assert (Hs : 1 <= 1 <= 10) by lia.
  split; [exact Hs|].
  destruct (walk_valid_steps Builders.WalkDirection_left 7 1 None Robot_init Hs)
    as (cmd & Hcmd & Hr & _).
  cbv zeta in Hr. change (walk Builders.WalkDirection_left) with walk_left in Hr.
  rewrite Hr. vm_compute in Hcmd. injection Hcmd as <-.
  split; reflexivity.
Defined.

(** ** The longest text that can be said *)

(** The body of the command of a fragment, and the command. *)
Definition activity_body (cmd : str) : str :=
  jtext "{'cmd':'activity.recieved','data':{'output':'" ++ cmd ++ jtext "'}}".

Lemma len_activity_body (cmd : str) : len (activity_body cmd) = len cmd + 48.
Proof.
  unfold activity_body. rewrite !len_app.
  change (len (jtext "{'cmd':'activity.recieved','data':{'output':'")) with 45.
  change (len (jtext "'}}")) with 3. lia.
Qed.

Lemma activity_cmd_within (cmd : str) :
  len cmd <= 4042 ->
  activity_cmd cmd
  = Ok (zfill (str_of_Z (len (activity_body cmd))) 6 ++ activity_body cmd).
Proof.
  intros Hl. unfold activity_cmd, framed, json_length. cbv zeta.
  fold (activity_body cmd).
  pose proof (len_activity_body cmd).
  destruct (Z.gtb_spec (len (activity_body cmd)) 4090); [lia|reflexivity].
Qed.

Lemma len_say_fragment (u : N) (said : str) :
  len (say_fragment u said) = len said + 30.
Proof.
  unfold say_fragment. rewrite !len_app. unfold len at 3.
  rewrite length_generate_id. change (len (text "<TE=")) with 4.
  change (len (text ">")) with 1. lia.
Qed.

(** X6. [Robot.say] sends exactly when the text has at most 4012
    characters: the command is then the body, with the text and the
    directive [<TE=id>] in it, behind its length in six digits. For a longer
    text it raises [ValueError] and sends nothing; the action is then
    already marked active and the new handle registered, and they stay
    so. *)
Theorem say_longest_text (u : N) (said : str) (cb : option nat) (w : World) :
  say u said cb w
  = if len said <=? 4012 then
      let body := activity_body (said ++ text "<TE=" ++ generate_id u ++ text ">") in
      (Returned (length (handles w)),
       set_trace (trace w ++ [Sent (zfill (str_of_Z (len said + 78)) 6 ++ body)])
         (dispatched u cb w))
    else (Raised ValueError, dispatched u cb w).
Proof.
  rewrite say_run. pose proof (len_say_fragment u said) as Hl.
  destruct (Z.leb_spec (len said) 4012).
  - rewrite activity_cmd_within by lia. cbv zeta.
    rewrite len_activity_body, Hl.
    replace (len said + 30 + 48) with (len said + 78) by lia. reflexivity.
  - unfold activity_cmd, framed. cbv zeta. fold (activity_body (say_fragment u said)).
    rewrite json_length_too_long; [reflexivity|].
    rewrite len_activity_body. lia.
Qed.

(** ** Keep-alive after an action *)

(** The clock shows [t]. *)
Definition at_time (t : Q) (w : World) : World :=
  {| version := version w; voltage := voltage w;
     _keep_alive_secs := _keep_alive_secs w;
     _action_handles := _action_handles w;
     _is_action_active := _is_action_active w; _is_running := _is_running w;
     _last_cmd_time := _last_cmd_time w; handles := handles w;
     clock := t; trace := trace w |}.

Lemma keep_alive_turn_idle (w : World) :
  _is_running w = true -> _is_action_active w = false ->
  _keep_alive_turn w
  = (Returned true,
     if Qgtb (clock w - _last_cmd_time w) (_keep_alive_secs w)
     then set_trace (trace w ++ [Sent keep_alive_cmd; Logged debug keeping_alive])
            (set_last_cmd_time (clock w) w)
     else w).
Proof.
  intros Hr Ha. unfold _keep_alive_turn. unfold_bind. rewrite Hr, Ha.
  cbn [negb andb]. destruct (Qgtb _ _); [|reflexivity].
  change (activity_cmd (text " ")) with (Ok keep_alive_cmd). cbv beta iota.
  unfold send, emit, modify. project. rewrite <- app_assoc. reflexivity.
Qed.

(** A turn of the keep-alive loop in an idle world whose last command was
    sent at [t1], taken at [t2]. *)
Lemma keep_alive_turn_after (t1 t2 : Q) (c : World) :
  _is_running c = true -> _is_action_active c = false ->
  _last_cmd_time c = t1 ->
  _keep_alive_turn (at_time t2 c)
  = (Returned true,
     if Qgtb (t2 - t1) (_keep_alive_secs c)
     then set_trace (trace c ++ [Sent keep_alive_cmd; Logged debug keeping_alive])
            (set_last_cmd_time t2 (at_time t2 c))
     else at_time t2 c).
Proof.
  intros Hr Ha Hl. rewrite keep_alive_turn_idle; [|exact Hr|exact Ha].
  cbn [clock _last_cmd_time _keep_alive_secs at_time trace]. by rewrite Hl.
Qed.

(** The world after the second trigger of a registered handle [h] has been
    read in its envelope. *)
Definition completed (u : N) (w : World) : World :=
  (_data_received_cb (trigger_envelope (generate_id u)) w).2.

Lemma data_received_cb_completes (u : N) (h : nat) (cb : option nat)
    (self : ActionHandle) (w : World) :
  _action_handles w !! generate_id u = Some (1, h) ->
  handles w !! h = Some self ->
  callbacks self = match cb with Some n => [done_cb n] | None => [] end
                   ++ [Robot_set_action_done] ->
  _is_action_active (completed u w) = false
  /\ _last_cmd_time (completed u w) = clock w
  /\ _is_running (completed u w) = _is_running w
  /\ _keep_alive_secs (completed u w) = _keep_alive_secs w.
Proof.
  intros Hl Hh Hcb. unfold completed.
  pose proof (data_received_cb_trigger u w) as Hd. cbv zeta in Hd. rewrite Hd.
  match goal with
  | |- context [_set_action_handle_done _ ?w1] => set (w' := w1)
  end.
  rewrite (set_action_handle_done_again (generate_id u) 1 h w');
    [|exact Hl|lia].
  rewrite (done_dispatched h self cb); [|exact Hh|exact Hcb].
  project. done.
Qed.

(** X7. The keep-alive loop counts its period from the completion of the
    last action. A turn taken while an action is active sends nothing,
    whatever the clock shows. Once the second trigger of the action has been
    read at time [t1], a turn at time [t2] sends the inert command and logs
    it if [t2 - t1] exceeds the period, and changes nothing otherwise. *)
Theorem keep_alive_counts_from_completion
    (u : N) (h : nat) (cb : option nat) (self : ActionHandle)
    (t1 t2 : Q) (w : World) :
  _is_running w = true ->
  _is_action_active w = true ->
  _action_handles w !! generate_id u = Some (1, h) ->
  handles w !! h = Some self ->
  callbacks self = match cb with Some n => [done_cb n] | None => [] end
                   ++ [Robot_set_action_done] ->
  _keep_alive_turn (at_time t2 w) = (Returned true, at_time t2 w)
  /\ ((_keep_alive_secs w < t2 - t1)%Q ->
      _keep_alive_turn (at_time t2 (completed u (at_time t1 w)))
      = (Returned true,
         set_trace (trace (completed u (at_time t1 w))
                    ++ [Sent keep_alive_cmd; Logged debug keeping_alive])
           (set_last_cmd_time t2 (at_time t2 (completed u (at_time t1 w))))))
  /\ (~ (_keep_alive_secs w < t2 - t1)%Q ->
      _keep_alive_turn (at_time t2 (completed u (at_time t1 w)))
      = (Returned true, at_time t2 (completed u (at_time t1 w)))).
Proof.
  intros Hr Ha Hl Hh Hcb.
  split.
  { rewrite keep_alive_turn_active by exact Ha. by rewrite <- Hr. }
  destruct (data_received_cb_completes u h cb self (at_time t1 w) Hl Hh Hcb)
    as (Hact & Hlast & Hrun & Hsecs).
  generalize dependent (completed u (at_time t1 w)). intros c Hact Hlast Hrun Hsecs.
  rewrite (keep_alive_turn_after t1 t2 c); [|by rewrite Hrun|exact Hact|exact Hlast].
  rewrite Hsecs. cbn [_keep_alive_secs at_time].
  destruct (Qgtb (t2 - t1) (_keep_alive_secs w)) eqn:E.
  - apply Qgtb_lt in E. split; [done|]. intros Hn. contradiction.
  - split; [|done]. intros Hlt. apply Qgtb_lt in Hlt. congruence.
Qed.

Definition busy_world : World :=
  {| version := Json.Str []; voltage := NaN; _keep_alive_secs := 9;
     _action_handles := {[ generate_id 5 := (1, 0%nat) ]};
     _is_action_active := true; _is_running := true;
     _last_cmd_time := 0;
     handles := [ {| id := generate_id 5; callbacks := [Robot_set_action_done];
                     timeout := None; event_ := false; timer_started := false |} ];
     clock := 0; trace := [] |}.

Lemma keep_alive_counts_from_completion_witness :
  _keep_alive_turn (at_time (100 # 1) busy_world)
  = (Returned true, at_time (100 # 1) busy_world)
  /\ _keep_alive_turn (at_time (12 # 1) (completed 5 (at_time (4 # 1) busy_world)))
     = (Returned true, at_time (12 # 1) (completed 5 (at_time (4 # 1) busy_world))).
Proof.
  destruct (keep_alive_counts_from_completion 5 0 None
              {| id := generate_id 5; callbacks := [Robot_set_action_done];
                 timeout := None; event_ := false; timer_started := false |}
              (4 # 1) (12 # 1) busy_world eq_refl eq_refl) as (_ & _ & H2).
  - vm_compute. reflexivity.
  - reflexivity.
  - reflexivity.
  - destruct (keep_alive_counts_from_completion 5 0 None
              {| id := generate_id 5; callbacks := [Robot_set_action_done];
                 timeout := None; event_ := false; timer_started := false |}
              (4 # 1) (100 # 1) busy_world eq_refl eq_refl) as (H1 & _ & _).
    + vm_compute. reflexivity.
    + reflexivity.
    + reflexivity.
    + split; [exact H1|]. apply H2. vm_compute. discriminate.
Defined.

(** ** The reader of the transport *)













(** ** An invariant of the registry *)

























(** ** Objects that the decoder survives *)







(** ** The estimate of the time of a text *)

(** [sep.join(parts)] for a separator of one character. *)
Fixpoint join (sep : ascii) (parts : list str) : str :=
  match parts with
  | [] => []
  | [part] => part
  | part :: parts' => part ++ sep :: join sep parts'
  end.

Lemma split_cons (s : str) (sep : ascii) :
  exists part parts, split s sep = part :: parts.
Proof.
  induction s as [|c s (part & parts & IH)]; [by eexists _, _|].
  cbn [split]. destruct (Ascii.eqb c sep); [by eexists _, _|].
  rewrite IH. by eexists _, _.
Qed.

Lemma length_split (s : str) (sep : ascii) :
  length (split s sep) = S (length (List.filter (fun c => Ascii.eqb c sep) s)).
Proof.
  induction s as [|c s IH]; [done|]. cbn [split List.filter].
  destruct (split_cons s sep) as (part & parts & Hs).
  destruct (Ascii.eqb c sep); cbn [length]; [by rewrite IH|].
  rewrite Hs in *. exact IH.
Qed.

Lemma join_cons (sep : ascii) (part next : str) (parts : list str) :
  join sep (part :: next :: parts) = part ++ sep :: join sep (next :: parts).
Proof. reflexivity. Qed.

Lemma join_split (s : str) (sep : ascii) : join sep (split s sep) = s.
Proof.
  induction s as [|c s IH]; [done|]. cbn [split].
  destruct (split_cons s sep) as (part & parts & Hs). rewrite Hs in *.
  destruct (Ascii.eqb_spec c sep) as [->|Hne].
  - rewrite join_cons, IH. reflexivity.
  - destruct parts as [|next parts].
    + cbn [join] in *. by rewrite IH.
    + rewrite join_cons in *. cbn [app]. by rewrite IH.
Qed.

Lemma split_parts (s : str) (sep : ascii) :
  Forall (fun part => forallb (fun c => negb (Ascii.eqb c sep)) part = true)
    (split s sep).
Proof.
  induction s as [|c s IH]; [by repeat constructor|]. cbn [split].
  destruct (Ascii.eqb c sep) eqn:E; [by constructor|].
  destruct (split s sep) as [|part parts]; [by repeat constructor; cbn; rewrite E|].
  apply Forall_cons_1 in IH as [Hp Hps]. constructor; [|done].
  cbn [forallb]. by rewrite E.
Qed.

(** X11. [SayCommandBuilder] refuses a rate of words that is not positive
    and otherwise builds the text as it is. Its estimate of the time counts
    the parts between spaces, not the words: the parts hold no space, give
    the text back when joined by spaces, and are one more than the spaces of
    the text, so the estimate, times the rate, is sixty seconds for every
    space and sixty more, and the empty text is given the time of one
    word. *)
Theorem say_duration_counts_spaces (said : str) (rate : Z) :
  let spaces := length (List.filter (fun c => Ascii.eqb c " "%char) said) in
  let parts := split said " "%char in
  join " "%char parts = said
  /\ Forall (fun part => forallb (fun c => negb (Ascii.eqb c " "%char)) part = true)
       parts
  /\ length parts = S spaces
  /\ match Builders.SayCommandBuilder_init said rate with
     | Raise e => e = ValueError /\ rate <= 0
     | Ok builder =>
         0 < rate
         /\ Builders.SayCommandBuilder_build builder = said
         /\ (Builders.SayCommandBuilder_duration builder * (rate # 1)
             == (60 * (Z.of_nat spaces + 1)) # 1)%Q
     end.
Proof.
  intros spaces parts.
  split; [apply join_split|]. split; [apply split_parts|].
  split; [apply length_split|].
  unfold Builders.SayCommandBuilder_init.
  destruct (Z.leb_spec rate 0) as [Hle|Hlt]; [done|].
  split; [done|]. split; [reflexivity|].
  unfold Builders.SayCommandBuilder_duration.
  cbn [Builders.say_text Builders.wpm]. cbv zeta.
  rewrite length_split. fold spaces.
  replace (Z.of_nat (S spaces)) with (Z.of_nat spaces + 1) by lia.
  generalize (Z.of_nat spaces + 1). intros n.
  assert (H : ((n # 1) / (rate # 1) * (60 # 1) * (rate # 1)
               == (n # 1) * (60 # 1))%Q).
  { field. unfold Qeq. cbn. lia. }
  rewrite H. unfold Qeq, Qmult. cbn [Qnum Qden]. lia.
Qed.
